(** * FreeShow: error logger, screen enumeration and audio spectrum analyzer

    A shallow embedding of three pieces of the FreeShow sources:

    - the error logger of the main process ([logError], [catchErrors],
      [createLog]);
    - the screen / window enumeration [getScreens];
    - the browser-side [SpectrumAnalyzer] class
      (src/frontend/audio/spectrumAnalyzer.ts).

    JavaScript numbers that hold measurements (frequencies, amplitudes,
    canvas coordinates) are embedded as real numbers [R]: the rounding of
    IEEE doubles and of [Float32Array] stores is not modelled, and neither
    are NaN and the infinities.  Integer quantities (array lengths, bin
    indices, millisecond time stamps) are [nat] or [Z]. *)

From Stdlib Require Import String Ascii ZArith Lia Bool List.
From Stdlib Require Import Strings.Byte.
From Stdlib Require Import Reals Lra Psatz.
Import ListNotations.

(* ================================================================== *)
(** ** The error logger of the main process *)
(* ================================================================== *)

Module ErrorLogger.

Local Open Scope string_scope.
Local Open Scope list_scope.
Local Open Scope nat_scope.

(** The three keys of the [error_log] store. *)
Inductive LogKey : Type := main | renderer | request.

(** An [ErrorLog] entry (the type is declared in types/Main), with the
    fields [createLog] fills in and the optional [dev] flag [logError]
    sets outside production builds. *)
Record ErrorLog : Type := mkErrorLog {
  time : Z;
  os : string;
  version : string;
  type : string;
  source : string;
  message : string;
  stack : option string;
  dev : option bool
}.

Definition set_dev (log : ErrorLog) : ErrorLog :=
  {| time := time log; os := os log; version := version log;
     type := type log; source := source log; message := message log;
     stack := stack log; dev := Some true |}.

(** The content of the [error_log] store: each key is either absent or
    holds an array of entries.  The store itself is declared in
    data/store, outside the sources at hand; it is used through its
    [store] getter, which reads all keys, and through [set]. *)
Record Store : Type := mkStore {
  s_main : option (list ErrorLog);
  s_renderer : option (list ErrorLog);
  s_request : option (list ErrorLog)
}.

Definition store_get (key : LogKey) (st : Store) : option (list ErrorLog) :=
  match key with
  | main => s_main st
  | renderer => s_renderer st
  | request => s_request st
  end.

(** [error_log.set({ [key]: value })] replaces one key and leaves the
    others alone. *)
Definition store_set (key : LogKey) (v : list ErrorLog) (st : Store) : Store :=
  match key with
  | main => {| s_main := Some v; s_renderer := s_renderer st; s_request := s_request st |}
  | renderer => {| s_main := s_main st; s_renderer := Some v; s_request := s_request st |}
  | request => {| s_main := s_main st; s_renderer := s_renderer st; s_request := Some v |}
  end.

Definition maxLogLength : nat := 250.

(** [Array.prototype.slice(start)] for a start index within the array. *)
Definition slice {A : Type} (start : nat) (l : list A) : list A := skipn start l.

(** [storedLog[key] || []]: an array is always truthy. *)
Definition stored_or_empty (key : LogKey) (st : Store) : list ErrorLog :=
  match store_get key st with Some l => l | None => [] end.

(** The entry as [logError] stores it: flagged outside production. *)
Definition flagged (isProd : bool) (log : ErrorLog) : ErrorLog :=
  if negb isProd then set_dev log else log.

(** The bound [logError] applies to the array it is about to store. *)
Definition truncated {A : Type} (l : list A) : list A :=
  if maxLogLength <? List.length l
  then slice (List.length l - maxLogLength) l else l.

(** [logError(log, key)].  [isProd] is the build flag imported from the
    main module. *)
Definition logError (isProd : bool) (log : ErrorLog) (key : LogKey) (error_log : Store) : Store :=
  let log := flagged isProd log in
  let storedLog := error_log in
  let previousLog := stored_or_empty key storedLog in
  let previousLog := previousLog ++ [log] in
  let previousLog :=
    if maxLogLength <? List.length previousLog
    then slice (List.length previousLog - maxLogLength) previousLog
    else previousLog in
  if List.length previousLog =? 0 then error_log
  else store_set key previousLog error_log.

(** *** Uncaught exceptions *)

Definition ERROR_FILTER : list string :=
  [ "ENOENT: no such file or directory" ].

(** [String.prototype.includes]: does [sub] occur somewhere in [s]? *)
Fixpoint includes (s sub : string) : bool :=
  if String.prefix sub s then true
  else match s with
       | EmptyString => false
       | String _ s' => includes s' sub
       end.

(** The message contains the text [sub]. *)
Definition Contains (s sub : string) : Prop :=
  exists before after : string, s = (before ++ sub ++ after)%string.

(** A JavaScript [Error]: its message and its optional stack. *)
Record JsError : Type := mkJsError {
  err_message : string;
  err_stack : option string
}.

(** What [createLog] reads from its surroundings. *)
Record ProcessEnv : Type := mkProcessEnv {
  now : Z;                (* new Date() *)
  platform : string;      (* process.platform *)
  appVersion : string;    (* the result of getVersion() *)
  isProd : bool
}.

(** [a || b] on strings: the empty string is falsy. *)
Definition str_or (a b : string) : string :=
  match a with EmptyString => b | _ => a end.

Definition createLog (env : ProcessEnv) (err : JsError) : ErrorLog :=
  {| time := now env;
     os := str_or (platform env) "Unknown";
     version := appVersion env;
     type := "Uncaught Exception";
     source := "See stack";
     message := err_message err;
     stack := err_stack err;
     dev := None |}.

(** Truthiness of the result of [Array.prototype.find] on strings: no
    element found is [undefined], and a found empty string is falsy too. *)
Definition truthy_found (r : option string) : bool :=
  match r with
  | None => false
  | Some EmptyString => false
  | Some _ => true
  end.

(** The listener [catchErrors] installs for "uncaughtException". *)
Definition uncaughtExceptionHandler (env : ProcessEnv) (err : JsError) (error_log : Store) : Store :=
  if truthy_found (find (fun a => includes (err_message err) a) ERROR_FILTER)
  then error_log
  else logError (isProd env) (createLog env err) main error_log.

(** [catchErrors()]: the listeners of the process after the call, the
    new one last. *)
Definition catchErrors (listeners : list (ProcessEnv -> JsError -> Store -> Store))
    : list (ProcessEnv -> JsError -> Store -> Store) :=
  listeners ++ [uncaughtExceptionHandler].

(** The [Main.LOG_ERROR] entry of [mainResponses]: the key defaults to
    "renderer". *)
Definition LOG_ERROR (isProd : bool) (data : ErrorLog) (error_log : Store) : Store :=
  logError isProd data renderer error_log.

(** *** A few values to run the logger on *)

Definition emptyStore : Store :=
  {| s_main := None; s_renderer := None; s_request := None |}.

Definition demoProcess : ProcessEnv :=
  {| now := 1700000000000; platform := "linux"; appVersion := "1.4.0";
     isProd := true |}.

Definition enoentError : JsError :=
  {| err_message := "ENOENT: no such file or directory, open 'show.json'";
     err_stack := None |}.

Definition typeError : JsError :=
  {| err_message := "Cannot read properties of undefined";
     err_stack := Some "TypeError: at main.js:1:1" |}.

(** A store whose "main" log is full. *)
Definition fullStore : Store :=
  {| s_main := Some (repeat (createLog demoProcess typeError) maxLogLength);
     s_renderer := None; s_request := None |}.

(** *** Several entries, several exceptions *)

(** [logError] called for each entry of [logs] in turn, under one key. *)
Definition logErrors (isProd : bool) (logs : list ErrorLog) (key : LogKey)
    (error_log : Store) : Store :=
  fold_left (fun st log => logError isProd log key st) logs error_log.

(** The "uncaughtException" listener run on the exceptions of a process
    one after the other, each with the surroundings it is raised in. *)
Definition handleAll (events : list (ProcessEnv * JsError)) (error_log : Store)
    : Store :=
  fold_left (fun st ev => uncaughtExceptionHandler (fst ev) (snd ev) st)
            events error_log.

(** The last [n] elements of a list (all of it when it is shorter). *)
Definition lastEntries {A : Type} (n : nat) (l : list A) : list A :=
  skipn (List.length l - n) l.

(** The exception is not one the listener drops. *)
Definition passesFilter (err : JsError) : bool :=
  negb (includes (err_message err) "ENOENT: no such file or directory").

End ErrorLogger.

(* ================================================================== *)
(** ** Screen and window enumeration *)
(* ================================================================== *)

Module Screens.

Local Open Scope string_scope.
Local Open Scope list_scope.

Inductive SourceType : Type := window | screen.

(** The two fields of a [DesktopCapturerSource] the code reads. *)
Record DesktopCapturerSource : Type := mkSource {
  src_name : string;
  src_id : string
}.

(** A [BrowserWindow], as far as [addFreeShowWindows] looks at it. *)
Record BrowserWindow : Type := mkWindow {
  getMediaSourceId : string;
  getTitle : string
}.

(** An output of [OutputHelper.getAllOutputs()]; its window may be missing. *)
Record Output : Type := mkOutput {
  out_window : option BrowserWindow
}.

(** An entry of the returned list.  A field is [None] when the optional
    chaining [window?.f()] yields [undefined]. *)
Record ScreenEntry : Type := mkEntry {
  name : option string;
  id : option string
}.

(** A settled promise: fulfilled with a value or rejected with a reason. *)
Inductive Settled (A : Type) : Type :=
| Fulfilled (a : A)
| RejectedWith (reason : string).
Arguments Fulfilled {A} a.
Arguments RejectedWith {A} reason.

(** The state of the promise [getScreens] returns. *)
Inductive PromiseState (A : Type) : Type :=
| Pending
| Resolved (a : A)
| Rejected (reason : string).
Arguments Pending {A}.
Arguments Resolved {A} a.
Arguments Rejected {A} reason.

(** The surroundings of one call. *)
Record Env : Type := mkEnv {
  getSources : SourceType -> Settled (list DesktopCapturerSource);
  mainWindow : option BrowserWindow;
  getAllOutputs : list Output
}.

(** The effects of the promise handlers: lines written with
    [console.error] and the value handed to [resolve], if any. *)
Record Effects : Type := mkEffects {
  console : list (string * string);
  resolved : option (list ScreenEntry)
}.

Definition no_effects : Effects := {| console := []; resolved := None |}.

Definition console_error (msg reason : string) (e : Effects) : Effects :=
  {| console := console e ++ [(msg, reason)]; resolved := resolved e |}.

(** [resolve(v)]: only the first call settles the promise. *)
Definition resolve (v : list ScreenEntry) (e : Effects) : Effects :=
  {| console := console e;
     resolved := match resolved e with Some r => Some r | None => Some v end |}.

Definition String_eqb_opt (a : string) (b : option string) : bool :=
  match b with Some b' => String.eqb a b' | None => false end.

(** The inner function [addFreeShowWindows]. *)
Definition addFreeShowWindows (env : Env) (screens : list ScreenEntry)
    (sources : list DesktopCapturerSource) : list ScreenEntry :=
  let windows :=
    fold_left (fun ws output =>
                 match out_window output with
                 | Some w => ws ++ [w]
                 | None => ws
                 end) (getAllOutputs env) [] in
  fold_left (fun screens (window : option BrowserWindow) =>
               let mediaId := option_map getMediaSourceId window in
               let windowsAlreadyExists :=
                 find (fun a => String_eqb_opt (src_id a) mediaId) sources in
               match windowsAlreadyExists with
               | Some _ => screens
               | None => screens ++ [ {| name := option_map getTitle window; id := mediaId |} ]
               end)
            (mainWindow env :: map Some windows) screens.

(** The [.then] handler. *)
Definition onSources (type : SourceType) (env : Env)
    (sources : list DesktopCapturerSource) (e : Effects) : Effects :=
  let screens :=
    fold_left (fun screens source =>
                 screens ++ [ {| name := Some (src_name source); id := Some (src_id source) |} ])
              sources [] in
  let screens :=
    match type with
    | window => addFreeShowWindows env screens sources
    | screen => screens
    end in
  resolve screens e.

(** The [.catch] handler. *)
Definition onError (reason : string) (e : Effects) : Effects :=
  resolve [] (console_error "Could not get screens:" reason e).

(** [getScreens(type)]: the state of the returned promise once the chain
    [getSources(...).then(...).catch(...)] has run, with the console
    output. *)
Definition getScreens (type : SourceType) (env : Env)
    : PromiseState (list ScreenEntry) * list (string * string) :=
  let e :=
    match getSources env type with
    | Fulfilled sources => onSources type env sources no_effects
    | RejectedWith reason => onError reason no_effects
    end in
  (match resolved e with
   | Some v => Resolved v
   | None => Pending
   end, console e).

(** The description of the result the properties below compare the
    code with: the entry of a captured source, FreeShow's own windows
    (the main window, then the windows of the outputs that have one),
    and the entries of those whose media source id is not the id of a
    captured source. *)
Definition entryOfSource (source : DesktopCapturerSource) : ScreenEntry :=
  {| name := Some (src_name source); id := Some (src_id source) |}.

Definition entryOfWindow (w : option BrowserWindow) : ScreenEntry :=
  {| name := option_map getTitle w; id := option_map getMediaSourceId w |}.

Definition freeShowWindows (env : Env) : list (option BrowserWindow) :=
  mainWindow env ::
  flat_map (fun output =>
              match out_window output with
              | Some w => [Some w]
              | None => []
              end) (getAllOutputs env).

Definition alreadyCaptured (sources : list DesktopCapturerSource)
    (w : option BrowserWindow) : bool :=
  existsb (fun a => String_eqb_opt (src_id a) (option_map getMediaSourceId w)) sources.

Definition ownWindowEntries (env : Env) (sources : list DesktopCapturerSource)
    : list ScreenEntry :=
  map entryOfWindow
      (filter (fun w => negb (alreadyCaptured sources w)) (freeShowWindows env)).

(** The two entries of [mainResponses] that call [getScreens]. *)
Definition GET_SCREENS (env : Env) := getScreens screen env.
Definition GET_WINDOWS (env : Env) := getScreens window env.

(** *** A few values to run the enumeration on *)

Definition controlWindow : BrowserWindow :=
  {| getMediaSourceId := "window:1:0"; getTitle := "FreeShow" |}.

Definition outputWindow : BrowserWindow :=
  {| getMediaSourceId := "window:7:0"; getTitle := "Output" |}.

(** The capturer reports the main window and a browser, but not the
    output window. *)
Definition demoSources : list DesktopCapturerSource :=
  [ {| src_name := "FreeShow"; src_id := "window:1:0" |};
    {| src_name := "Browser"; src_id := "window:3:0" |} ].

Definition workingEnv : Env :=
  {| getSources := fun _ => Fulfilled demoSources;
     mainWindow := Some controlWindow;
     getAllOutputs := [ {| out_window := None |};
                        {| out_window := Some outputWindow |} ] |}.

Definition failingEnv : Env :=
  {| getSources := fun _ => RejectedWith "Failed to get sources.";
     mainWindow := Some controlWindow;
     getAllOutputs := [] |}.

End Screens.

(* ================================================================== *)
(** ** The spectrum analyzer *)
(* ================================================================== *)

Module SpectrumAnalyzer.

Local Open Scope R_scope.

(** *** The pieces of JavaScript's [Math] the class uses *)

Definition Math_floor (x : R) : Z := Int_part x.
Definition Math_ceil (x : R) : Z := (- Int_part (- x))%Z.
(** [Math.round] rounds halves upwards. *)
Definition Math_round (x : R) : Z := Int_part (x + / 2).
(** [Math.log10], on its domain [x > 0]. *)
Definition Math_log10 (x : R) : R := ln x / ln 10.
(** [Math.pow(b, y)] for a positive base. *)
Definition Math_pow (b y : R) : R := Rpower b y.

(** *** Typed arrays *)

(** The number a [Uint8Array] element reads as. *)
Definition byteR (b : byte) : R := IZR (Z.of_N (Byte.to_N b)).

(** A store [a[i] = v] into a typed array: ignored outside the array. *)
Fixpoint ta_set {A : Type} (i : nat) (v : A) (l : list A) : list A :=
  match l, i with
  | [], _ => []
  | _ :: t, O => v :: t
  | h :: t, S i' => h :: ta_set i' v t
  end.

(** [new Uint8Array(n)] and [new Float32Array(n)]: [n] zeros. *)
Definition new_Uint8Array (n : nat) : list byte := repeat x00 n.
Definition new_Float32Array (n : nat) : list R := repeat 0 n.

(** [a[i] || 0] on a [Float32Array] with an integer index: the element,
    and [0] where the index is outside the array. *)
Definition get_or_0 (a : list R) (i : Z) : R :=
  if (i <? 0)%Z then 0 else nth (Z.to_nat i) a 0.

(** *** The analyser node and the surroundings of a call *)

(** An [AnalyserNode] of the Web Audio API, as [AudioAnalyser]
    (audioAnalyser.ts, outside the sources at hand) hands it out:
    [frequencyBinCount] is the length of the byte data
    [getByteFrequencyData] copies into an array of that length. *)
Record AnalyserNode : Type := mkAnalyser {
  fftSize : Z;
  sampleRate : R;                       (* analyser.context.sampleRate *)
  byteFrequencyData : list byte
}.

Definition frequencyBinCount (a : AnalyserNode) : nat :=
  length (byteFrequencyData a).

Record Env : Type := mkEnv {
  Date_now : Z;                         (* Date.now(), in milliseconds *)
  getAnalysers : list AnalyserNode;     (* AudioAnalyser.getAnalysers(); null is [] *)
  nextFrame : Z                         (* the handle requestAnimationFrame returns *)
}.

(** [analysers && analysers.length > 0], then [analysers[0]]. *)
Definition firstAnalyser (env : Env) : option AnalyserNode :=
  match getAnalysers env with
  | [] => None
  | a :: _ => Some a
  end.

(** *** The object *)

Record State : Type := mkState {
  frequencyData : list byte;            (* Uint8Array *)
  smoothedFrequencyData : list R;       (* Float32Array *)
  animationFrame : option Z;
  isAnalyzing : bool;
  lastUpdateTime : Z;
  actualFFTSize : Z;
  actualSampleRate : R;
  onUpdateCallback : option nat         (* the callback, by name *)
}.

Definition updateInterval : Z := 50.
Definition smoothingFactor : R := 15 / 100.
Definition numBars : nat := 100.
Definition minFreq : R := 20.
Definition maxFreq : R := 20000.

(** What a call does to the outside. *)
Inductive Event : Type :=
| GetByteFrequencyData (at_time : Z)
| InvokeCallback (cb : nat)
| RequestAnimationFrame (handle : Z)
| CancelAnimationFrame (handle : Z).

Definition set_arrays (fd : list byte) (sm : list R) (st : State) : State :=
  {| frequencyData := fd; smoothedFrequencyData := sm;
     animationFrame := animationFrame st; isAnalyzing := isAnalyzing st;
     lastUpdateTime := lastUpdateTime st; actualFFTSize := actualFFTSize st;
     actualSampleRate := actualSampleRate st;
     onUpdateCallback := onUpdateCallback st |}.

Definition set_animationFrame (h : option Z) (st : State) : State :=
  {| frequencyData := frequencyData st;
     smoothedFrequencyData := smoothedFrequencyData st;
     animationFrame := h; isAnalyzing := isAnalyzing st;
     lastUpdateTime := lastUpdateTime st; actualFFTSize := actualFFTSize st;
     actualSampleRate := actualSampleRate st;
     onUpdateCallback := onUpdateCallback st |}.

Definition set_lastUpdateTime (t : Z) (st : State) : State :=
  {| frequencyData := frequencyData st;
     smoothedFrequencyData := smoothedFrequencyData st;
     animationFrame := animationFrame st; isAnalyzing := isAnalyzing st;
     lastUpdateTime := t; actualFFTSize := actualFFTSize st;
     actualSampleRate := actualSampleRate st;
     onUpdateCallback := onUpdateCallback st |}.

Definition updateAnalyserProperties (env : Env) (st : State) : State :=
  match firstAnalyser env with
  | Some analyser =>
      let actualBinCount := frequencyBinCount analyser in
      let resized := negb (length (frequencyData st) =? actualBinCount)%nat in
      {| frequencyData :=
           if resized then new_Uint8Array actualBinCount else frequencyData st;
         smoothedFrequencyData :=
           if resized then new_Float32Array actualBinCount
           else smoothedFrequencyData st;
         animationFrame := animationFrame st; isAnalyzing := isAnalyzing st;
         lastUpdateTime := lastUpdateTime st;
         actualFFTSize := fftSize analyser;
         actualSampleRate := sampleRate analyser;
         onUpdateCallback := onUpdateCallback st |}
  | None => st
  end.

Definition constructor (env : Env) : State :=
  updateAnalyserProperties env
    {| frequencyData := new_Uint8Array 128;
       smoothedFrequencyData := new_Float32Array 128;
       animationFrame := None; isAnalyzing := false; lastUpdateTime := 0;
       actualFFTSize := 256; actualSampleRate := 48000;
       onUpdateCallback := None |}.

(** The shape the two loops of [updateFrequencyData] share: for the
    indices [a], ..., [a + n - 1] in turn, element [i] is overwritten
    with a value computed from the index and the element. *)
Definition pointwiseLoop {A : Type} (g : nat -> A -> A) (d : A)
    (a n : nat) (l : list A) : list A :=
  fold_left (fun l i => ta_set i (g i (nth i l d)) l) (seq a n) l.

(** The copy loop [for (i < tempData.length) frequencyData[i] = tempData[i]]. *)
Definition copyLoop (tempData : list byte) (fd : list byte) : list byte :=
  fold_left (fun fd i => ta_set i (nth i tempData x00) fd)
            (seq 0 (length tempData)) fd.

(** The smoothing loop over [i < frequencyData.length]. *)
Definition smoothLoop (fd : list byte) (sm : list R) : list R :=
  fold_left (fun sm i =>
               ta_set i (smoothingFactor * byteR (nth i fd x00)
                         + (1 - smoothingFactor) * nth i sm 0) sm)
            (seq 0 (length fd)) sm.

(** [updateFrequencyData()]: one turn of the animation loop.  The update
    callback is taken not to call back into the analyzer. *)
Definition updateFrequencyData (env : Env) (st : State) : State * list Event :=
  if negb (isAnalyzing st) then (st, [])
  else
    let currentTime := Date_now env in
    if (currentTime - lastUpdateTime st <? updateInterval)%Z then
      (set_animationFrame (Some (nextFrame env)) st,
       [RequestAnimationFrame (nextFrame env)])
    else
      let st := set_lastUpdateTime currentTime st in
      let '(st, evs) :=
        match firstAnalyser env with
        | Some analyser =>
            let tempData := byteFrequencyData analyser in
            let st :=
              if negb (length (frequencyData st) =? length tempData)%nat
              then set_arrays (new_Uint8Array (length tempData))
                              (new_Float32Array (length tempData)) st
              else st in
            let st := set_arrays (copyLoop tempData (frequencyData st))
                                 (smoothedFrequencyData st) st in
            let st := set_arrays (frequencyData st)
                                 (smoothLoop (frequencyData st)
                                             (smoothedFrequencyData st)) st in
            (st, GetByteFrequencyData currentTime ::
                 match onUpdateCallback st with
                 | Some cb => [InvokeCallback cb]
                 | None => []
                 end)
        | None => (st, [])
        end in
      (set_animationFrame (Some (nextFrame env)) st,
       evs ++ [RequestAnimationFrame (nextFrame env)]).

Definition start (env : Env) (onUpdate : option nat) (st : State) : State * list Event :=
  if isAnalyzing st then (st, [])
  else
    let st := updateAnalyserProperties env st in
    let st :=
      {| frequencyData := frequencyData st;
         smoothedFrequencyData := smoothedFrequencyData st;
         animationFrame := animationFrame st; isAnalyzing := true;
         lastUpdateTime := lastUpdateTime st;
         actualFFTSize := actualFFTSize st;
         actualSampleRate := actualSampleRate st;
         onUpdateCallback := onUpdate |} in
    updateFrequencyData env st.

Definition stop (st : State) : State * list Event :=
  let cancel :=
    match animationFrame st with
    | Some h => negb (h =? 0)%Z
    | None => false
    end in
  ({| frequencyData := frequencyData st;
      smoothedFrequencyData := smoothedFrequencyData st;
      animationFrame := if cancel then None else animationFrame st;
      isAnalyzing := false;
      lastUpdateTime := lastUpdateTime st;
      actualFFTSize := actualFFTSize st;
      actualSampleRate := actualSampleRate st;
      onUpdateCallback := None |},
   match animationFrame st with
   | Some h => if cancel then [CancelAnimationFrame h] else []
   | None => []
   end).

Definition isRunning (st : State) : bool := isAnalyzing st.

Definition getFrequencyData (st : State) : list R := smoothedFrequencyData st.

Definition dispose (st : State) : State * list Event :=
  let '(st, evs) := stop st in
  (set_arrays (map (fun _ => x00) (frequencyData st))
              (map (fun _ => 0) (smoothedFrequencyData st)) st, evs).

(** The two arrays are always allocated together. *)
Definition sameLength (st : State) : Prop :=
  length (smoothedFrequencyData st) = length (frequencyData st).

(** *** Runs of the object *)

(** What can happen to the object: a call of one of its public methods,
    or the animation frame it requested coming due. *)
Inductive Call : Type :=
| CallStart (onUpdate : option nat)
| CallStop
| CallDispose
| AnimationFrame.

Definition call (c : Call) (env : Env) (st : State) : State * list Event :=
  match c with
  | CallStart onUpdate => start env onUpdate st
  | CallStop => stop st
  | CallDispose => dispose st
  | AnimationFrame => updateFrequencyData env st
  end.

Fixpoint run (cs : list (Call * Env)) (st : State) : State * list Event :=
  match cs with
  | [] => (st, [])
  | (c, env) :: cs' =>
      let '(st1, evs1) := call c env st in
      let '(st2, evs2) := run cs' st1 in
      (st2, evs1 ++ evs2)
  end.

(** The times at which the analyser was sampled, oldest first. *)
Definition sampleTimes (evs : list Event) : list Z :=
  flat_map (fun e => match e with
                     | GetByteFrequencyData t => [t]
                     | _ => []
                     end) evs.

(** Every sample is at least [updateInterval] after the one before it,
    and the first one at least [updateInterval] after [t0]. *)
Fixpoint spacedFrom (t0 : Z) (ts : list Z) : Prop :=
  match ts with
  | [] => True
  | t :: ts' => (updateInterval <= t - t0)%Z /\ spacedFrom t ts'
  end.

(** A turn of the loop either samples nothing and does not move
    [lastUpdateTime] back, or samples once, at least [updateInterval]
    after [lastUpdateTime], which it sets to the time of the sample. *)
Definition stepSpaced (st : State) (r : State * list Event) : Prop :=
  (sampleTimes (snd r) = [] /\ (lastUpdateTime st <= lastUpdateTime (fst r))%Z) \/
  (exists t, sampleTimes (snd r) = [t] /\
             (updateInterval <= t - lastUpdateTime st)%Z /\
             lastUpdateTime (fst r) = t).

(** *** A small configuration to run the object on *)

(** An analyser with the smallest FFT size of the Web Audio API (32, so
    16 bins) at 48 kHz, every bin reading [b]. *)
Definition demoAnalyser (b : byte) : AnalyserNode :=
  {| fftSize := 32; sampleRate := 48000; byteFrequencyData := repeat b 16 |}.

Definition demoEnv (t : Z) (b : byte) : Env :=
  {| Date_now := t; getAnalysers := [demoAnalyser b]; nextFrame := 1 |}.

(** The object after construction and a [start()] at time 1000 that
    sampled [b] in every bin. *)
Definition demoStarted (b : byte) : State :=
  fst (run [(CallStart None, demoEnv 1000 b)] (constructor (demoEnv 0 x00))).

(** An analyser with an FFT size of 64, so 32 bins, every bin reading
    [b]. *)
Definition wideAnalyser (b : byte) : AnalyserNode :=
  {| fftSize := 64; sampleRate := 48000; byteFrequencyData := repeat b 32 |}.

Definition wideEnv (t : Z) (b : byte) : Env :=
  {| Date_now := t; getAnalysers := [wideAnalyser b]; nextFrame := 2 |}.

(** *** Frequency lookups *)

Definition frequencyToBin (env : Env) (st : State) (frequency : R) : R :=
  match firstAnalyser env with
  | Some analyser =>
      let sampleRate := sampleRate analyser in
      let fftSize := fftSize analyser in
      IZR (Math_round ((frequency * IZR fftSize) / sampleRate))
  | None =>
      IZR (Math_round ((frequency * IZR (actualFFTSize st)) / actualSampleRate st))
  end.

Definition getFrequencyAmplitude (env : Env) (st : State) (frequency : R) : R :=
  let binIndex := frequencyToBin env st frequency in
  let maxBin := (Z.of_nat (length (smoothedFrequencyData st)) - 1)%Z in
  if Rle_dec binIndex 0 then get_or_0 (smoothedFrequencyData st) 0
  else if Rge_dec binIndex (IZR maxBin)
  then get_or_0 (smoothedFrequencyData st) maxBin
  else
    let lowerBin := Math_floor binIndex in
    let upperBin := Math_ceil binIndex in
    let fraction := binIndex - IZR lowerBin in
    let lowerValue := get_or_0 (smoothedFrequencyData st) lowerBin in
    let upperValue := get_or_0 (smoothedFrequencyData st) upperBin in
    lowerValue + (upperValue - lowerValue) * fraction.

Definition getNormalizedAmplitude (env : Env) (st : State) (frequency : R) : R :=
  getFrequencyAmplitude env st frequency / 255.

(** The loop of [getAveragedFrequencyAmplitude]: [n] bins are left to
    visit, starting at [bin]; the accumulator is
    [(weightedSum, totalWeight)]. *)
Fixpoint averagingLoop (sm : list R) (startFreq endFreq frequencyResolution : R)
    (totalBins : Z) (n : nat) (bin : Z) (acc : R * R) : R * R :=
  match n with
  | O => acc
  | S n' =>
      if (totalBins <=? bin)%Z then acc
      else
        let binStartFreq := IZR bin * frequencyResolution in
        let binEndFreq := IZR (bin + 1) * frequencyResolution in
        let overlapStart := Rmax startFreq binStartFreq in
        let overlapEnd := Rmin endFreq binEndFreq in
        let overlapAmount := Rmax 0 (overlapEnd - overlapStart) in
        let acc :=
          if Rlt_dec 0 overlapAmount then
            let weight := overlapAmount / frequencyResolution in
            let binValue := get_or_0 sm bin in
            (fst acc + binValue * weight, snd acc + weight)
          else acc in
        averagingLoop sm startFreq endFreq frequencyResolution totalBins
                      n' (bin + 1)%Z acc
  end.

Definition getAveragedFrequencyAmplitude (st : State)
    (startFreq endFreq frequencyResolution : R) (totalBins : Z) : R :=
  let sm := smoothedFrequencyData st in
  let startBinFloat := startFreq / frequencyResolution in
  let endBinFloat := endFreq / frequencyResolution in
  let startBin := Z.max 0 (Math_floor startBinFloat) in
  let endBin := Z.min (totalBins - 1) (Math_ceil endBinFloat) in
  if (startBin =? endBin)%Z then
    if (startBin <? totalBins - 1)%Z then
      let fraction := startBinFloat - IZR startBin in
      let currentValue := get_or_0 sm startBin in
      let nextValue := get_or_0 sm (startBin + 1) in
      currentValue + (nextValue - currentValue) * fraction
    else get_or_0 sm startBin
  else
    let '(weightedSum, totalWeight) :=
      averagingLoop sm startFreq endFreq frequencyResolution totalBins
                    (Z.to_nat (endBin - startBin + 1)) startBin (0, 0) in
    if Rlt_dec 0 totalWeight then weightedSum / totalWeight else 0.

(** *** The bars *)

Record SpectrumBar : Type := mkBar {
  x : R;
  width : R;
  height : R;
  frequency : R;
  amplitude : R
}.

(** The display range and the analyser figures [generateSpectrumBars]
    works with: [(maxDisplayFreq, sampleRate, fftSize)]. *)
Definition displayParameters (env : Env) (st : State) : R * R * Z :=
  match firstAnalyser env with
  | Some analyser =>
      (Rmin maxFreq (sampleRate analyser / 2), sampleRate analyser, fftSize analyser)
  | None => (maxFreq, actualSampleRate st, actualFFTSize st)
  end.

(** The body of the loop of [generateSpectrumBars], for bar [i]. *)
Definition spectrumBar (st : State) (canvasHeight barWidth maxDisplayFreq
    frequencyResolution : R) (totalBins : Z) (logMin logMax : R) (i : nat)
    : SpectrumBar :=
  let x := INR i * barWidth in
  let logProgress := INR i / INR numBars in
  let logFreq := logMin + logProgress * (logMax - logMin) in
  let frequency := Math_pow 10 logFreq in
  let nextLogProgress := INR (i + 1) / INR numBars in
  let nextLogFreq := logMin + nextLogProgress * (logMax - logMin) in
  let nextFrequency :=
    if (i =? numBars - 1)%nat then maxDisplayFreq
    else Math_pow 10 nextLogFreq in
  let amplitude :=
    getAveragedFrequencyAmplitude st frequency nextFrequency
                                  frequencyResolution totalBins in
  let normalizedAmplitude := amplitude / 255 in
  let logAmplitude :=
    if Rlt_dec 0 normalizedAmplitude
    then Math_log10 (normalizedAmplitude * 9 + 1) else 0 in
  let height := logAmplitude * canvasHeight * (9 / 10) in
  {| x := x;
     width := barWidth - 1;
     height := Rmax 0 height;
     frequency := frequency;
     amplitude := normalizedAmplitude |}.

Definition generateSpectrumBars (env : Env) (st : State)
    (canvasWidth canvasHeight : R) : list SpectrumBar :=
  let barWidth := canvasWidth / INR numBars in
  let '(maxDisplayFreq, sampleRate, fftSize) := displayParameters env st in
  let frequencyResolution := sampleRate / IZR fftSize in
  let totalBins := Z.of_nat (length (smoothedFrequencyData st)) in
  let logMin := Math_log10 minFreq in
  let logMax := Math_log10 maxDisplayFreq in
  map (spectrumBar st canvasHeight barWidth maxDisplayFreq
                   frequencyResolution totalBins logMin logMax)
      (seq 0 numBars).

(** *** The logarithmic frequency axis *)

Definition frequencyToX (frequency canvasWidth : R) : R :=
  let logMin := Math_log10 minFreq in
  let logMax := Math_log10 maxFreq in
  let logFreq := Math_log10 frequency in
  ((logFreq - logMin) / (logMax - logMin)) * canvasWidth.

Definition xToFrequency (x canvasWidth : R) : R :=
  let logMin := Math_log10 minFreq in
  let logMax := Math_log10 maxFreq in
  let logFreq := logMin + (x / canvasWidth) * (logMax - logMin) in
  Math_pow 10 logFreq.

(** Every smoothed bin value is in the range of a byte. *)
Definition binsInByteRange (st : State) : Prop :=
  Forall (fun v => 0 <= v <= 255) (smoothedFrequencyData st).


(** The sample rate and the FFT size [generateSpectrumBars] works with
    are positive, as those of an analyser node are. *)
Definition positiveParameters (env : Env) (st : State) : Prop :=
  let '(_, sampleRate, fftSize) := displayParameters env st in
  0 < sampleRate /\ (0 < fftSize)%Z.

(** The analysers of an environment have a positive sample rate and a
    positive FFT size. *)
Definition validEnv (env : Env) : Prop :=
  Forall (fun a => 0 < sampleRate a /\ (0 < fftSize a)%Z) (getAnalysers env).

(** What holds of the object from its construction on, in valid
    environments. *)
Definition invariant (st : State) : Prop :=
  sameLength st /\ binsInByteRange st /\
  0 < actualSampleRate st /\ (0 < actualFFTSize st)%Z.

(** *** The descriptions the properties below compare the code with *)

(** The part of bin [bin], which covers the frequencies from
    [bin * frequencyResolution] to [(bin + 1) * frequencyResolution],
    that lies in the range from [startFreq] to [endFreq]. *)
Definition binOverlap (startFreq endFreq frequencyResolution : R) (bin : Z) : R :=
  Rmax 0 (Rmin endFreq (IZR (bin + 1) * frequencyResolution)
          - Rmax startFreq (IZR bin * frequencyResolution)).

(** [f from + f (from + 1) + ... + f (from + n - 1)]. *)
Fixpoint sumOverBins (f : Z -> R) (n : nat) (from : Z) : R :=
  match n with
  | O => 0
  | S n' => f from + sumOverBins f n' (from + 1)%Z
  end.

(** The average of the bin values of [sm], each weighted by the overlap
    of its bin with the frequency range; [0] when no bin overlaps it. *)
Definition overlapWeightedAverage (sm : list R)
    (startFreq endFreq frequencyResolution : R) : R :=
  let overlap := binOverlap startFreq endFreq frequencyResolution in
  let totalOverlap := sumOverBins overlap (length sm) 0 in
  let weighted := sumOverBins (fun bin => get_or_0 sm bin * overlap bin) (length sm) 0 in
  if Rlt_dec 0 totalOverlap then weighted / totalOverlap else 0.

(** The frequency at which bar [i] starts on the logarithmic scale from
    [minFreq] to [maxDisplayFreq]. *)
Definition barFrequency (maxDisplayFreq : R) (i : nat) : R :=
  Rpower 10 (Math_log10 20
             + (INR i / 100) * (Math_log10 maxDisplayFreq - Math_log10 20)).

(** The upper end of the displayed range and the width of a bin, as
    [generateSpectrumBars] determines them. *)
Definition displayedMaxFreq (env : Env) : R :=
  match firstAnalyser env with
  | Some analyser => Rmin 20000 (sampleRate analyser / 2)
  | None => 20000
  end.

Definition binWidth (env : Env) (st : State) : R :=
  match firstAnalyser env with
  | Some analyser => sampleRate analyser / IZR (fftSize analyser)
  | None => actualSampleRate st / IZR (actualFFTSize st)
  end.

(** The index [z] brought into the range from [0] to [maxBin]. *)
Definition clampIndex (z maxBin : Z) : Z := Z.max 0 (Z.min z maxBin).

(** The bin nearest to a frequency, for the analyser figures in use. *)
Definition nearestBin (env : Env) (st : State) (frequency : R) : Z :=
  match firstAnalyser env with
  | Some analyser =>
      Math_round (frequency * IZR (fftSize analyser) / sampleRate analyser)
  | None =>
      Math_round (frequency * IZR (actualFFTSize st) / actualSampleRate st)
  end.

(** A lookup of the nearest bin, without interpolation. *)
Definition nearestBinLookup (env : Env) (st : State) (frequency : R) : R :=
  get_or_0 (smoothedFrequencyData st)
           (clampIndex (nearestBin env st frequency)
                       (Z.of_nat (length (smoothedFrequencyData st)) - 1)).

(** *** Colours *)

(** The three numbers of the CSS colour [hsl(h, s%, l%)] that
    [getSpectrumColor] returns as text. *)
Record Hsl : Type := mkHsl {
  hue : R;
  saturation : R;
  lightness : R
}.

Definition getSpectrumColor (amplitude : R) : Hsl :=
  if Rle_dec amplitude (15 / 100) then
    {| hue := 140; saturation := 100; lightness := 50 + amplitude * 200 |}
  else if Rle_dec amplitude (35 / 100) then
    let progress := (amplitude - 15 / 100) / (2 / 10) in
    let hue := 140 - progress * 20 in
    {| hue := hue; saturation := 100; lightness := 65 |}
  else if Rle_dec amplitude (55 / 100) then
    let progress := (amplitude - 35 / 100) / (2 / 10) in
    let hue := 120 - progress * 30 in
    {| hue := hue; saturation := 100; lightness := 65 |}
  else if Rle_dec amplitude (75 / 100) then
    let progress := (amplitude - 55 / 100) / (2 / 10) in
    let hue := 90 - progress * 35 in
    {| hue := hue; saturation := 100; lightness := 60 |}
  else if Rle_dec amplitude (9 / 10) then
    let progress := (amplitude - 75 / 100) / (15 / 100) in
    let hue := 55 - progress * 30 in
    {| hue := hue; saturation := 100; lightness := 55 |}
  else
    let progress := (amplitude - 9 / 10) / (1 / 10) in
    let hue := 25 - progress * 25 in
    {| hue := hue; saturation := 100; lightness := 50 |}.

(** *** Traces *)

(** In a trace, the update callback is invoked only right after a
    sample of the analyser. *)
Fixpoint callbacksFollowSamples (evs : list Event) : Prop :=
  match evs with
  | [] => True
  | InvokeCallback _ :: _ => False
  | GetByteFrequencyData _ :: rest =>
      match rest with
      | InvokeCallback _ :: rest' => callbacksFollowSamples rest'
      | _ => callbacksFollowSamples rest
      end
  | _ :: rest => callbacksFollowSamples rest
  end.

(** A stopped analyzer with no frame left to cancel. *)
Definition halted (st : State) : Prop :=
  isAnalyzing st = false /\
  (animationFrame st = None \/ animationFrame st = Some 0%Z).

(** The effects of a single call. *)
Inductive CallEffects : list Event -> Prop :=
| NoEffect : CallEffects []
| Cancelled h : CallEffects [CancelAnimationFrame h]
| Requested h : CallEffects [RequestAnimationFrame h]
| Sampled t h :
    CallEffects [GetByteFrequencyData t; RequestAnimationFrame h]
| SampledAndNotified t cb h :
    CallEffects [GetByteFrequencyData t; InvokeCallback cb;
                 RequestAnimationFrame h].

Definition isStart (c : Call) : bool :=
  match c with CallStart _ => true | _ => false end.

Definition isRequest (e : Event) : bool :=
  match e with RequestAnimationFrame _ => true | _ => false end.

End SpectrumAnalyzer.

(* ================================================================== *)
(** ** The recorder *)
(* ================================================================== *)

Module Recorder.

Local Open Scope string_scope.
Local Open Scope list_scope.

(** The helpers of utils/files [saveRecording] calls, and
    [dataFolderNames.recordings]. *)
Record Env : Type := mkEnv {
  getDataFolder : string -> string -> string;
  recordings : string;
  path_join : string -> string -> string
}.

(** The message of the renderer: [path] may be missing. *)
Record Msg : Type := mkMsg {
  path : option string;
  name : string;
  blob : list byte
}.

Inductive Effect : Type :=
| WriteFile (filePath : string) (buffer : list byte)
| OpenInSystem (folder : string).

(** [msg.path || ""]. *)
Definition path_or_empty (msg : Msg) : string :=
  match path msg with Some p => p | None => "" end.

Definition folderOf (env : Env) (msg : Msg) : string :=
  getDataFolder env (path_or_empty msg) (recordings env).

(** [saveRecording(_, msg)], on the module variable [systemOpened]:
    the new value of the variable and what is done to the file system. *)
Definition saveRecording (env : Env) (msg : Msg) (systemOpened : bool)
    : bool * list Effect :=
  let folder := folderOf env msg in
  let filePath := path_join env folder (name msg) in
  let buffer := blob msg in
  if negb systemOpened
  then (true, [WriteFile filePath buffer; OpenInSystem folder])
  else (systemOpened, [WriteFile filePath buffer]).

(** The recordings of a session, saved one after the other. *)
Fixpoint session (env : Env) (msgs : list Msg) (systemOpened : bool)
    : bool * list Effect :=
  match msgs with
  | [] => (systemOpened, [])
  | msg :: rest =>
      let '(opened, effects) := saveRecording env msg systemOpened in
      let '(opened', effects') := session env rest opened in
      (opened', effects ++ effects')
  end.

(** The write [saveRecording] performs for a message. *)
Definition writeOf (env : Env) (msg : Msg) : Effect :=
  WriteFile (path_join env (folderOf env msg) (name msg)) (blob msg).

Definition isOpen (e : Effect) : bool :=
  match e with OpenInSystem _ => true | WriteFile _ _ => false end.

End Recorder.

(* ================================================================== *)
(** ** Loading a scripture *)
(* ================================================================== *)

Module Scripture.

Local Open Scope string_scope.
Local Open Scope list_scope.

(** A Bible file, as far as [loadScripture] looks into it: the verses
    carry their words under "text", or under "value" in files written
    before v1.3.0. *)
Record Verse : Type := mkVerse {
  number : Z;
  text : option string;
  value : option string
}.

Record Chapter : Type := mkChapter {
  chapter_number : Z;
  verses : list Verse
}.

Record Book : Type := mkBook {
  book_name : string;
  chapters : list Chapter
}.

Record Bible : Type := mkBible {
  bible_name : string;
  books : list Book
}.

(** What [loadFile] returns: an error, or the content [[id, bible]]. *)
Record LoadedFile : Type := mkLoaded {
  error : option string;
  content : option (string * Bible)
}.

Record Env : Type := mkEnv {
  getDataFolder : string -> string -> string;
  scriptures : string;                       (* dataFolderNames.scriptures *)
  path_join : list string -> string;
  documents : string;                        (* app.getPath("documents") *)
  loadFile : string -> string -> LoadedFile
}.

Record Msg : Type := mkMsg {
  id : string;
  path : option string;
  name : string
}.











End Scripture.

(* ================================================================== *)
(** ** Properties of the error logger *)
(* ================================================================== *)

Module ErrorLoggerFacts.
Import ErrorLogger.

Local Open Scope string_scope.
Local Open Scope list_scope.
Local Open Scope nat_scope.

Lemma store_get_set_same key v st : store_get key (store_set key v st) = Some v.
Proof. destruct key; reflexivity. Qed.

Lemma store_get_set_other key key' v st :
  key <> key' -> store_get key' (store_set key v st) = store_get key' st.
Proof. destruct key, key'; simpl; congruence. Qed.

Lemma logError_unfold isProd log key st :
  logError isProd log key st =
  store_set key (truncated (stored_or_empty key st ++ [flagged isProd log])) st.
Proof.
  unfold logError, truncated.
  set (l := stored_or_empty key st ++ [flagged isProd log]).
  assert (Hl : List.length l = S (List.length (stored_or_empty key st))).
  { unfold l. rewrite length_app. simpl. lia. }
  destruct (maxLogLength <? List.length l) eqn:E.
  - apply Nat.ltb_lt in E. unfold slice.
    assert (Hs : List.length (skipn (List.length l - maxLogLength) l) = maxLogLength).
    { rewrite length_skipn. lia. }
    rewrite Hs. reflexivity.
  - rewrite Hl. reflexivity.
Qed.

Lemma truncated_length {A : Type} (l : list A) :
  List.length (truncated l) <= maxLogLength.
Proof.
  unfold truncated. destruct (maxLogLength <? List.length l) eqn:E.
  - apply Nat.ltb_lt in E. unfold slice. rewrite length_skipn. lia.
  - apply Nat.ltb_ge in E. exact E.
Qed.

Lemma truncated_suffix {A : Type} (l : list A) :
  exists dropped, l = dropped ++ truncated l.
Proof.
  unfold truncated. destruct (maxLogLength <? List.length l).
  - exists (firstn (List.length l - maxLogLength) l). unfold slice.
    symmetry. apply firstn_skipn.
  - exists []. reflexivity.
Qed.

Lemma truncated_last {A : Type} (l : list A) (a : A) :
  exists older, truncated (l ++ [a]) = older ++ [a].
Proof.
  unfold truncated. destruct (maxLogLength <? List.length (l ++ [a])) eqn:E.
  - apply Nat.ltb_lt in E. unfold slice. rewrite length_app in *. simpl in *.
    replace (List.length l + 1 - maxLogLength) with (List.length l - (maxLogLength - 1))
      by (unfold maxLogLength in *; lia).
    rewrite skipn_app.
    replace (List.length l - (maxLogLength - 1) - List.length l) with 0 by lia.
    simpl. eexists. reflexivity.
  - exists l. reflexivity.
Qed.

(** C5.  Whatever the key, the entry and the log stored before, after
    [logError] the log stored under the key has at most [maxLogLength]
    (250) entries and ends with the new entry; it is a suffix of the old
    log followed by the new entry, so the entries it keeps are the most
    recent ones; when the old log with the new entry exceeds the bound
    exactly 250 entries are kept, and otherwise nothing is dropped.  The
    other keys are left as they were. *)
Theorem logError_bounded :
  forall (isProd : bool) (log : ErrorLog) (key : LogKey) (error_log : Store),
    let previous := stored_or_empty key error_log in
    let entry := flagged isProd log in
    exists entries : list ErrorLog,
      store_get key (logError isProd log key error_log) = Some entries /\
      List.length entries <= maxLogLength /\
      (exists older, entries = older ++ [entry]) /\
      (exists dropped, previous ++ [entry] = dropped ++ entries) /\
      (maxLogLength < List.length (previous ++ [entry]) ->
       List.length entries = maxLogLength) /\
      (List.length (previous ++ [entry]) <= maxLogLength ->
       entries = previous ++ [entry]) /\
      (forall key', key <> key' ->
         store_get key' (logError isProd log key error_log) = store_get key' error_log).
Proof.
  intros isProd log key error_log previous entry.
  exists (truncated (previous ++ [entry])).
  rewrite logError_unfold. fold previous entry.
  split; [apply store_get_set_same|].
  split; [apply truncated_length|].
  split; [apply truncated_last|].
  split; [apply truncated_suffix|].
  split; [|split].
  - intros H. unfold truncated.
    apply Nat.ltb_lt in H. rewrite H. unfold slice. rewrite length_skipn.
    apply Nat.ltb_lt in H. lia.
  - intros H. unfold truncated. apply Nat.ltb_ge in H. rewrite H. reflexivity.
  - intros key' Hk. apply store_get_set_other; assumption.
Qed.

Lemma logError_bounded_witness :
  exists entries : list ErrorLog,
    store_get main (logError true (createLog demoProcess enoentError) main fullStore)
    = Some entries /\
    List.length entries = maxLogLength /\
    exists older, entries = older ++ [createLog demoProcess enoentError].
Proof.
  destruct (logError_bounded true (createLog demoProcess enoentError) main fullStore)
    as (entries & Hget & _ & Hlast & _ & Hfull & _).
  exists entries. split; [exact Hget|]. split; [|exact Hlast].
  apply Hfull. apply Nat.ltb_lt. reflexivity.
Defined.

Example logError_first_entry :
  store_get renderer (LOG_ERROR true (createLog demoProcess typeError) emptyStore)
  = Some [createLog demoProcess typeError].
Proof. reflexivity. Qed.

Example logError_flags_dev :
  option_map (map dev)
    (store_get request (logError false (createLog demoProcess typeError) request emptyStore))
  = Some [Some true].
Proof. reflexivity. Qed.

(** *** Substring search *)

Lemma prefix_spec (sub s : string) :
  String.prefix sub s = true <-> exists after, s = (sub ++ after)%string.
Proof.
  revert s. induction sub as [|c sub IH]; intros s.
  - destruct s; simpl; (split; [intros _; eexists; reflexivity | reflexivity]).
  - destruct s as [|d s]; simpl.
    + split; [discriminate | intros [after H]; discriminate].
    + destruct (Ascii.ascii_dec c d) as [->|Hne].
      * rewrite IH. split; intros [after H]; exists after.
        -- now rewrite H.
        -- now injection H.
      * split; [discriminate | intros [after H]; injection H; congruence].
Qed.

Lemma includes_unfold (s sub : string) :
  includes s sub =
  if String.prefix sub s then true
  else match s with
       | EmptyString => false
       | String _ s' => includes s' sub
       end.
Proof. destruct s; reflexivity. Qed.

Lemma includes_spec (s sub : string) :
  includes s sub = true <-> Contains s sub.
Proof.
  unfold Contains. induction s as [|c s IH]; rewrite includes_unfold.
  - destruct (String.prefix sub "") eqn:E.
    + split; [intros _ | reflexivity].
      apply prefix_spec in E. destruct E as [after E]. exists "", after. exact E.
    + split; [discriminate|]. intros [before [after H]].
      destruct before; simpl in H; [|discriminate].
      assert (String.prefix sub "" = true) by (apply prefix_spec; eauto).
      congruence.
  - destruct (String.prefix sub (String c s)) eqn:E.
    + split; [intros _ | reflexivity].
      apply prefix_spec in E. destruct E as [after E]. exists "", after. exact E.
    + rewrite IH. split.
      * intros [before [after H]]. exists (String c before), after.
        simpl. now rewrite H.
      * intros [before [after H]]. destruct before as [|d before]; simpl in H.
        -- assert (String.prefix sub (String c s) = true)
             by (apply prefix_spec; eauto).
           congruence.
        -- injection H as _ H. eauto.
Qed.

Lemma filter_decides (msg : string) :
  truthy_found (find (fun a => includes msg a) ERROR_FILTER) = true <->
  exists f, In f ERROR_FILTER /\ Contains msg f.
Proof.
  unfold ERROR_FILTER. simpl.
  destruct (includes msg "ENOENT: no such file or directory") eqn:E; simpl.
  - split; [intros _ | reflexivity].
    eexists; split; [left; reflexivity | apply includes_spec; exact E].
  - split; [discriminate|]. intros [f [[<-|[]] Hc]].
    apply includes_spec in Hc. congruence.
Qed.

Lemma truncated_lastEntries {A : Type} (l : list A) :
  truncated l = lastEntries maxLogLength l.
Proof.
  unfold truncated, lastEntries, slice.
  destruct (maxLogLength <? List.length l) eqn:E; [reflexivity|].
  apply Nat.ltb_ge in E.
  replace (List.length l - maxLogLength) with 0 by lia. reflexivity.
Qed.

(** C6.  The "uncaughtException" listener appends an entry under the
    "main" key exactly when the message of the exception contains no
    entry of [ERROR_FILTER]: a filtered exception leaves the error log
    as it was, and any other one is handed to [logError] under "main",
    after which the stored "main" log is the log stored before (none
    counting as empty) with the entry [createLog] built for it
    (carrying the exception's message) added at its end, cut to its
    last 250 entries - nothing is cut while the log had fewer than 250
    entries - and the other two logs are as before. *)
Theorem catchErrors_filters :
  forall (env : ProcessEnv) (err : JsError) (error_log : Store),
    let filtered := exists f, In f ERROR_FILTER /\ Contains (err_message err) f in
    let entry := flagged (isProd env) (createLog env err) in
    let previous :=
      match store_get main error_log with Some log => log | None => [] end in
    (filtered -> uncaughtExceptionHandler env err error_log = error_log) /\
    (~ filtered ->
       uncaughtExceptionHandler env err error_log
         = logError (isProd env) (createLog env err) main error_log /\
       message entry = err_message err /\
       store_get main (uncaughtExceptionHandler env err error_log)
         = Some (lastEntries maxLogLength (previous ++ [entry])) /\
       (List.length previous < maxLogLength ->
        store_get main (uncaughtExceptionHandler env err error_log)
          = Some (previous ++ [entry])) /\
       (exists older,
          store_get main (uncaughtExceptionHandler env err error_log)
            = Some (older ++ [entry])) /\
       store_get renderer (uncaughtExceptionHandler env err error_log)
         = store_get renderer error_log /\
       store_get request (uncaughtExceptionHandler env err error_log)
         = store_get request error_log).
Proof.
  intros env err error_log filtered entry previous.
  unfold uncaughtExceptionHandler.
  destruct (truthy_found _) eqn:E.
  - split; [reflexivity|]. intros Hn. exfalso. apply Hn.
    apply filter_decides. exact E.
  - split.
    + intros Hf. apply filter_decides in Hf. congruence.
    + intros _. split; [reflexivity|]. split.
      * unfold entry, flagged. destruct (negb (isProd env)); reflexivity.
      * rewrite logError_unfold. rewrite store_get_set_same.
        change (stored_or_empty main error_log) with previous. fold entry.
        split; [rewrite truncated_lastEntries; reflexivity|].
        split; [|split; [|split; reflexivity]].
        -- intros Hlen. rewrite truncated_lastEntries. unfold lastEntries.
           rewrite length_app. simpl List.length.
           replace (List.length previous + 1 - maxLogLength) with 0 by lia.
           reflexivity.
        -- destruct (truncated_last previous entry) as [older H].
           exists older. rewrite H. reflexivity.
Qed.

Lemma catchErrors_filters_witness :
  uncaughtExceptionHandler demoProcess enoentError fullStore = fullStore /\
  store_get main (uncaughtExceptionHandler demoProcess typeError fullStore)
  = Some (lastEntries maxLogLength
            (repeat (createLog demoProcess typeError) maxLogLength
             ++ [flagged true (createLog demoProcess typeError)])) /\
  store_get main (uncaughtExceptionHandler demoProcess typeError emptyStore)
  = Some [flagged true (createLog demoProcess typeError)].
Proof.
  assert (Hpass : ~ (exists f, In f ERROR_FILTER
                               /\ Contains (err_message typeError) f)).
  { intros [f [[<- | []] Hc]]. apply includes_spec in Hc. discriminate Hc. }
  split; [|split].
  - apply (proj1 (catchErrors_filters demoProcess enoentError fullStore)).
    exists "ENOENT: no such file or directory". split; [left; reflexivity|].
    exists "", ", open 'show.json'". reflexivity.
  - exact (proj1 (proj2 (proj2 (proj2 (catchErrors_filters demoProcess typeError
                                         fullStore) Hpass)))).
  - apply (proj1 (proj2 (proj2 (proj2 (proj2 (catchErrors_filters demoProcess
                                                typeError emptyStore) Hpass))))).
    unfold maxLogLength. simpl. lia.
Defined.

Example handler_keeps_full_log_full :
  option_map (@List.length ErrorLog)
    (store_get main (uncaughtExceptionHandler demoProcess typeError fullStore))
  = Some 250.
Proof. reflexivity. Qed.

Example includes_middle : includes "Error: ENOENT: no such file or directory" "ENOENT" = true.
Proof. reflexivity. Qed.

Example includes_missing : includes "EACCES: permission denied" "ENOENT" = false.
Proof. reflexivity. Qed.

End ErrorLoggerFacts.

(* ================================================================== *)
(** ** Properties of the screen enumeration *)
(* ================================================================== *)

Module ScreensFacts.
Import Screens.

Local Open Scope string_scope.
Local Open Scope list_scope.

Lemma push_all {A B : Type} (f : A -> B) (l : list A) (acc : list B) :
  fold_left (fun acc a => acc ++ [f a]) l acc = acc ++ map f l.
Proof.
  revert acc. induction l as [|a l IH]; intros acc; simpl.
  - now rewrite app_nil_r.
  - rewrite IH, <- app_assoc. reflexivity.
Qed.

Lemma collect_windows (outputs : list Output) (acc : list BrowserWindow) :
  fold_left (fun ws output =>
               match out_window output with
               | Some w => ws ++ [w]
               | None => ws
               end) outputs acc
  = acc ++ flat_map (fun output =>
                       match out_window output with
                       | Some w => [w]
                       | None => []
                       end) outputs.
Proof.
  revert acc. induction outputs as [|o outputs IH]; intros acc; simpl.
  - now rewrite app_nil_r.
  - rewrite IH. destruct (out_window o); simpl.
    + now rewrite <- app_assoc.
    + reflexivity.
Qed.

Lemma find_existsb {A : Type} (p : A -> bool) (l : list A) :
  match find p l with Some _ => true | None => false end = existsb p l.
Proof.
  induction l as [|a l IH]; simpl; [reflexivity|].
  destruct (p a); simpl; [reflexivity | exact IH].
Qed.

Lemma push_missing (sources : list DesktopCapturerSource)
    (ws : list (option BrowserWindow)) (acc : list ScreenEntry) :
  fold_left (fun screens (window : option BrowserWindow) =>
               let mediaId := option_map getMediaSourceId window in
               let windowsAlreadyExists :=
                 find (fun a => String_eqb_opt (src_id a) mediaId) sources in
               match windowsAlreadyExists with
               | Some _ => screens
               | None => screens ++ [ {| name := option_map getTitle window; id := mediaId |} ]
               end) ws acc
  = acc ++ map entryOfWindow (filter (fun w => negb (alreadyCaptured sources w)) ws).
Proof.
  revert acc. induction ws as [|w ws IH]; intros acc; simpl.
  - now rewrite app_nil_r.
  - rewrite IH. unfold alreadyCaptured at 2.
    rewrite <- find_existsb.
    destruct (find _ sources); simpl.
    + reflexivity.
    + rewrite <- app_assoc. reflexivity.
Qed.

Lemma map_Some_flat_map (outputs : list Output) :
  map Some (flat_map (fun output =>
                        match out_window output with
                        | Some w => [w]
                        | None => []
                        end) outputs)
  = flat_map (fun output =>
                match out_window output with
                | Some w => [Some w]
                | None => []
                end) outputs.
Proof.
  induction outputs as [|o outputs IH]; simpl; [reflexivity|].
  rewrite map_app, IH. destruct (out_window o); reflexivity.
Qed.

Lemma addFreeShowWindows_spec env screens sources :
  addFreeShowWindows env screens sources = screens ++ ownWindowEntries env sources.
Proof.
  unfold addFreeShowWindows, ownWindowEntries, freeShowWindows.
  rewrite collect_windows. simpl app.
  rewrite map_Some_flat_map.
  apply (push_missing sources (mainWindow env :: _) screens).
Qed.

(** C7.  The promise [getScreens] returns (for either handler,
    [Main.GET_SCREENS] and [Main.GET_WINDOWS]) is never rejected and
    never left pending.  When [desktopCapturer.getSources] fails, the
    error is written to the console and the promise resolves with the
    empty list.  When it succeeds, the promise resolves, with nothing
    logged, with one [{name, id}] entry per captured source, in order,
    followed - for type "window" only - by the entries of FreeShow's
    own windows whose media source id is not that of a captured
    source. *)
Theorem getScreens_never_rejects :
  forall (type : SourceType) (env : Env),
    (forall reason, fst (getScreens type env) <> Rejected reason) /\
    fst (getScreens type env) <> Pending /\
    (forall reason,
        getSources env type = RejectedWith reason ->
        getScreens type env
          = (Resolved [], [("Could not get screens:", reason)])) /\
    (forall sources,
        getSources env type = Fulfilled sources ->
        getScreens type env
          = (Resolved (map entryOfSource sources ++
                       match type with
                       | window => ownWindowEntries env sources
                       | screen => []
                       end), [])).
Proof.
  intros type env.
  assert (Hok : forall sources,
             getSources env type = Fulfilled sources ->
             getScreens type env
             = (Resolved (map entryOfSource sources ++
                          match type with
                          | window => ownWindowEntries env sources
                          | screen => []
                          end), [])).
  { intros sources H. unfold getScreens, onSources. rewrite H.
    rewrite (push_all (fun source =>
                         {| name := Some (src_name source);
                            id := Some (src_id source) |}) sources []).
    change (fun source => {| name := Some (src_name source);
                             id := Some (src_id source) |})
      with entryOfSource.
    simpl app.
    destruct type; simpl.
    - rewrite addFreeShowWindows_spec. reflexivity.
    - rewrite app_nil_r. reflexivity. }
  assert (Herr : forall reason,
             getSources env type = RejectedWith reason ->
             getScreens type env
             = (Resolved [], [("Could not get screens:", reason)])).
  { intros reason H. unfold getScreens, onError. rewrite H. reflexivity. }
  repeat split; try assumption.
  - intros reason. destruct (getSources env type) as [sources|r] eqn:E.
    + rewrite (Hok _ eq_refl). discriminate.
    + rewrite (Herr _ eq_refl). discriminate.
  - destruct (getSources env type) as [sources|r] eqn:E.
    + rewrite (Hok _ eq_refl). discriminate.
    + rewrite (Herr _ eq_refl). discriminate.
Qed.

Lemma getScreens_never_rejects_witness :
  GET_SCREENS failingEnv
  = (Resolved [], [("Could not get screens:", "Failed to get sources.")]) /\
  GET_WINDOWS workingEnv
  = (Resolved [ {| name := Some "FreeShow"; id := Some "window:1:0" |};
                {| name := Some "Browser"; id := Some "window:3:0" |};
                {| name := Some "Output"; id := Some "window:7:0" |} ], []).
Proof.
  split.
  - apply (proj1 (proj2 (proj2 (getScreens_never_rejects screen failingEnv)))).
    reflexivity.
  - apply (proj2 (proj2 (proj2 (getScreens_never_rejects window workingEnv)))
             demoSources).
    reflexivity.
Defined.

Example GET_SCREENS_working :
  GET_SCREENS workingEnv
  = (Resolved [ {| name := Some "FreeShow"; id := Some "window:1:0" |};
                {| name := Some "Browser"; id := Some "window:3:0" |} ], []).
Proof. reflexivity. Qed.

End ScreensFacts.

(* ================================================================== *)
(** ** Properties of the spectrum analyzer *)
(* ================================================================== *)

Module SpectrumAnalyzerFacts.
Import SpectrumAnalyzer.

Local Open Scope R_scope.

(** *** Typed-array stores and the two loops *)

Lemma ta_set_length {A : Type} (i : nat) (v : A) (l : list A) :
  length (ta_set i v l) = length l.
Proof.
  revert i. induction l as [|h t IH]; intros [|i]; simpl; auto.
Qed.

Lemma ta_set_nth {A : Type} (i j : nat) (v d : A) (l : list A) :
  nth j (ta_set i v l) d =
  if ((j =? i) && (j <? length l))%nat then v else nth j l d.
Proof.
  revert i j. induction l as [|h t IH]; intros i j.
  - destruct i, j; simpl; try reflexivity;
      now rewrite Bool.andb_false_r.
  - destruct i as [|i], j as [|j]; simpl; try reflexivity.
    rewrite IH. reflexivity.
Qed.

(** Case analysis on the comparisons of natural numbers in the goal. *)
Ltac nat_cases :=
  repeat match goal with
         | |- context [(?a =? ?b)%nat] => destruct (Nat.eqb_spec a b)
         | |- context [(?a <=? ?b)%nat] => destruct (Nat.leb_spec a b)
         | |- context [(?a <? ?b)%nat] => destruct (Nat.ltb_spec a b)
         end;
  simpl; subst; try reflexivity; try lia.

Section PointwiseLoop.
Context {A : Type} (g : nat -> A -> A) (d : A).

Lemma pointwiseLoop_length a n l :
  length (pointwiseLoop g d a n l) = length l.
Proof.
  unfold pointwiseLoop. revert a l.
  induction n as [|n IH]; intros a l; simpl; [reflexivity|].
  rewrite IH. apply ta_set_length.
Qed.

Lemma pointwiseLoop_nth a n l j :
  nth j (pointwiseLoop g d a n l) d =
  if ((a <=? j) && (j <? a + n) && (j <? length l))%nat
  then g j (nth j l d) else nth j l d.
Proof.
  unfold pointwiseLoop. revert a l.
  induction n as [|n IH]; intros a l; simpl.
  - nat_cases.
  - rewrite IH. rewrite ta_set_length. rewrite !ta_set_nth.
    nat_cases.
Qed.
End PointwiseLoop.

Lemma copyLoop_copies (tempData fd : list byte) :
  length fd = length tempData -> copyLoop tempData fd = tempData.
Proof.
  intros Hlen.
  change (copyLoop tempData fd)
    with (pointwiseLoop (fun i _ => nth i tempData x00) x00 0 (length tempData) fd).
  apply (nth_ext _ _ x00 x00).
  - rewrite pointwiseLoop_length. exact Hlen.
  - intros j Hj. rewrite pointwiseLoop_length in Hj.
    rewrite pointwiseLoop_nth. simpl.
    replace (j <? length tempData)%nat with true by (symmetry; apply Nat.ltb_lt; lia).
    replace (j <? length fd)%nat with true by (symmetry; apply Nat.ltb_lt; lia).
    reflexivity.
Qed.

Lemma smoothLoop_length (fd : list byte) (sm : list R) :
  length (smoothLoop fd sm) = length sm.
Proof.
  change (smoothLoop fd sm)
    with (pointwiseLoop (fun i old => smoothingFactor * byteR (nth i fd x00)
                                      + (1 - smoothingFactor) * old)
                        0 0 (length fd) sm).
  apply pointwiseLoop_length.
Qed.

Lemma smoothLoop_nth (fd : list byte) (sm : list R) (i : nat) :
  length sm = length fd -> (i < length fd)%nat ->
  nth i (smoothLoop fd sm) 0 =
  smoothingFactor * byteR (nth i fd x00) + (1 - smoothingFactor) * nth i sm 0.
Proof.
  intros Hlen Hi.
  change (smoothLoop fd sm)
    with (pointwiseLoop (fun i old => smoothingFactor * byteR (nth i fd x00)
                                      + (1 - smoothingFactor) * old)
                        0 0 (length fd) sm).
  rewrite pointwiseLoop_nth. simpl.
  replace (i <? length fd)%nat with true by (symmetry; apply Nat.ltb_lt; lia).
  replace (i <? length sm)%nat with true by (symmetry; apply Nat.ltb_lt; lia).
  reflexivity.
Qed.

(** The smoothed array the smoothing loop starts from: the stored one,
    or a fresh array of zeros when the sample has another length. *)
Lemma update_arrays (env : Env) (st : State) (analyser : AnalyserNode) :
  isAnalyzing st = true ->
  (updateInterval <= Date_now env - lastUpdateTime st)%Z ->
  firstAnalyser env = Some analyser ->
  sameLength st ->
  let tempData := byteFrequencyData analyser in
  let st' := fst (updateFrequencyData env st) in
  frequencyData st' = tempData /\
  smoothedFrequencyData st' =
    smoothLoop tempData
      (if (length (frequencyData st) =? length tempData)%nat
       then smoothedFrequencyData st
       else new_Float32Array (length tempData)) /\
  lastUpdateTime st' = Date_now env /\
  snd (updateFrequencyData env st) =
    GetByteFrequencyData (Date_now env) ::
    match onUpdateCallback st with
    | Some cb => [InvokeCallback cb]
    | None => []
    end ++ [RequestAnimationFrame (nextFrame env)].
Proof.
  intros Hrun Htime Han Hwf tempData st'.
  unfold st', updateFrequencyData. rewrite Hrun. simpl negb. cbv iota.
  replace (Date_now env - lastUpdateTime st <? updateInterval)%Z with false
    by (symmetry; apply Z.ltb_ge; exact Htime).
  rewrite Han. fold tempData. simpl lastUpdateTime.
  destruct (length (frequencyData st) =? length tempData)%nat eqn:E; simpl.
  - apply Nat.eqb_eq in E. rewrite (copyLoop_copies tempData _ E).
    repeat split; destruct (onUpdateCallback st); reflexivity.
  - rewrite (copyLoop_copies tempData (new_Uint8Array (length tempData))).
    + repeat split; destruct (onUpdateCallback st); reflexivity.
    + unfold new_Uint8Array. apply repeat_length.
Qed.

(** *** The two arrays keep the same length *)

Lemma constructor_sameLength env : sameLength (constructor env).
Proof.
  unfold constructor, updateAnalyserProperties, sameLength.
  destruct (firstAnalyser env) as [a|]; simpl.
  - destruct (negb _); unfold new_Float32Array, new_Uint8Array;
      rewrite !repeat_length; reflexivity.
  - reflexivity.
Qed.

Lemma updateAnalyserProperties_sameLength env st :
  sameLength st -> sameLength (updateAnalyserProperties env st).
Proof.
  unfold updateAnalyserProperties, sameLength. intros H.
  destruct (firstAnalyser env) as [a|]; simpl; [|exact H].
  destruct (negb _); [|exact H].
  unfold new_Float32Array, new_Uint8Array. rewrite !repeat_length. reflexivity.
Qed.

Lemma updateFrequencyData_sameLength env st :
  sameLength st -> sameLength (fst (updateFrequencyData env st)).
Proof.
  intros H. unfold updateFrequencyData.
  destruct (isAnalyzing st) eqn:Hrun; simpl; [|exact H].
  destruct (Date_now env - lastUpdateTime st <? updateInterval)%Z eqn:Ht;
    simpl; [exact H|].
  destruct (firstAnalyser env) as [a|] eqn:Ha; simpl; [|exact H].
  unfold sameLength. simpl. rewrite smoothLoop_length.
  destruct (negb _) eqn:E; simpl.
  - rewrite copyLoop_copies; unfold new_Float32Array, new_Uint8Array;
      rewrite ?repeat_length; reflexivity.
  - apply Bool.negb_false_iff, Nat.eqb_eq in E.
    rewrite copyLoop_copies by exact E. rewrite H. exact E.
Qed.

Lemma call_sameLength c env st :
  sameLength st -> sameLength (fst (call c env st)).
Proof.
  intros H. destruct c as [onUpdate| | |]; simpl.
  - unfold start. destruct (isAnalyzing st); [exact H|].
    apply updateFrequencyData_sameLength.
    apply (updateAnalyserProperties_sameLength env) in H. exact H.
  - exact H.
  - unfold dispose, sameLength. simpl. rewrite !length_map. exact H.
  - apply updateFrequencyData_sameLength. exact H.
Qed.

(** *** Smoothing *)

(** C1, as the code has it.  In a turn of the update loop that performs
    the update (the analyzer is running, at least [updateInterval] has
    passed since the last update) and finds an analyser, the smoothed array gets the
    length of the sampled byte array and each of its elements becomes
    [smoothingFactor] (0.15) times the sampled byte plus
    [1 - smoothingFactor] times the value the element had: the stored
    value, or zero when the sample has another length than the stored
    arrays, which are then allocated afresh before the loop. *)
Theorem smoothing_applied :
  forall (env : Env) (st : State) (analyser : AnalyserNode),
    isAnalyzing st = true ->
    (updateInterval <= Date_now env - lastUpdateTime st)%Z ->
    firstAnalyser env = Some analyser ->
    sameLength st ->
    let sample := byteFrequencyData analyser in
    let st' := fst (updateFrequencyData env st) in
    length (smoothedFrequencyData st') = length sample /\
    forall i : nat,
      (i < length sample)%nat ->
      nth i (smoothedFrequencyData st') 0 =
      smoothingFactor * byteR (nth i sample x00)
      + (1 - smoothingFactor)
        * (if (length (frequencyData st) =? length sample)%nat
           then nth i (smoothedFrequencyData st) 0
           else 0).
Proof.
  intros env st analyser Hrun Htime Han Hwf sample st'.
  destruct (update_arrays env st analyser Hrun Htime Han Hwf)
    as (_ & Hsm & _).
  fold sample st' in Hsm. rewrite Hsm. rewrite smoothLoop_length.
  destruct (length (frequencyData st) =? length sample)%nat eqn:E.
  - apply Nat.eqb_eq in E. split; [congruence|].
    intros i Hi. apply smoothLoop_nth; [congruence | exact Hi].
  - unfold new_Float32Array. rewrite repeat_length. split; [reflexivity|].
    intros i Hi. rewrite smoothLoop_nth by (rewrite ?repeat_length; auto).
    rewrite nth_repeat. reflexivity.
Qed.

(** *** Throttling *)

Lemma sampleTimes_app evs1 evs2 :
  sampleTimes (evs1 ++ evs2) = sampleTimes evs1 ++ sampleTimes evs2.
Proof. unfold sampleTimes. apply flat_map_app. Qed.

Lemma spacedFrom_earlier t0 t0' ts :
  (t0 <= t0')%Z -> spacedFrom t0' ts -> spacedFrom t0 ts.
Proof.
  destruct ts as [|t ts]; simpl; [trivial|].
  intros Hle [H1 H2]. split; [lia | exact H2].
Qed.

Lemma spacedFrom_nth t0 ts j :
  spacedFrom t0 ts -> (j < length ts)%nat ->
  (updateInterval <= nth j ts 0%Z - t0)%Z.
Proof.
  revert t0 j. induction ts as [|t ts IH]; intros t0 j Hs Hj; simpl in *.
  - lia.
  - destruct Hs as [H1 H2]. destruct j as [|j]; [exact H1|].
    specialize (IH t j H2 ltac:(lia)). unfold updateInterval in *. lia.
Qed.

Lemma spacedFrom_pairwise t0 ts i j :
  spacedFrom t0 ts -> (i < j < length ts)%nat ->
  (updateInterval <= nth j ts 0%Z - nth i ts 0%Z)%Z.
Proof.
  revert t0 i j. induction ts as [|t ts IH]; intros t0 i j Hs Hij; simpl in *.
  - lia.
  - destruct Hs as [H1 H2]. destruct j as [|j]; [lia|].
    destruct i as [|i].
    + apply spacedFrom_nth; [exact H2 | lia].
    + apply (IH t); [exact H2 | lia].
Qed.

Lemma updateFrequencyData_spaced env st :
  stepSpaced st (updateFrequencyData env st).
Proof.
  unfold stepSpaced, updateFrequencyData.
  destruct (isAnalyzing st); simpl; [|left; split; [reflexivity | lia]].
  destruct (Date_now env - lastUpdateTime st <? updateInterval)%Z eqn:Ht; simpl.
  - left. split; [reflexivity | lia].
  - apply Z.ltb_ge in Ht.
    destruct (firstAnalyser env) as [a|]; simpl.
    + right. exists (Date_now env). rewrite sampleTimes_app.
      destruct (negb _); simpl; (split; [|split; [exact Ht | reflexivity]]);
        destruct (onUpdateCallback st); reflexivity.
    + left. split; [reflexivity|]. unfold updateInterval in Ht. lia.
Qed.

Lemma call_spaced c env st : stepSpaced st (call c env st).
Proof.
  destruct c as [onUpdate| | |]; simpl.
  - unfold start. destruct (isAnalyzing st) eqn:Hrun.
    + left. simpl. split; [reflexivity | lia].
    + match goal with
      | |- stepSpaced st (updateFrequencyData env ?s) =>
          assert (HL : lastUpdateTime s = lastUpdateTime st)
            by (unfold updateAnalyserProperties;
                destruct (firstAnalyser env); reflexivity);
          pose proof (updateFrequencyData_spaced env s) as H;
          unfold stepSpaced in *; rewrite HL in H; exact H
      end.
  - left. unfold stop. simpl. split; [|lia].
    destruct (animationFrame st) as [h|]; [|reflexivity].
    destruct (negb _); reflexivity.
  - left. unfold dispose, stop. simpl. split; [|lia].
    destruct (animationFrame st) as [h|]; [|reflexivity].
    destruct (negb _); reflexivity.
  - apply updateFrequencyData_spaced.
Qed.

Lemma run_spaced cs st :
  spacedFrom (lastUpdateTime st) (sampleTimes (snd (run cs st))).
Proof.
  revert st. induction cs as [|[c env] cs IH]; intros st; simpl; [trivial|].
  pose proof (call_spaced c env st) as Hc.
  destruct (call c env st) as [st1 evs1].
  specialize (IH st1). destruct (run cs st1) as [st2 evs2].
  unfold stepSpaced in Hc. simpl in *. rewrite sampleTimes_app.
  destruct Hc as [[He HL] | (t & He & Ht & HL)]; rewrite He; simpl.
  - apply (spacedFrom_earlier _ _ _ HL IH).
  - split; [exact Ht|]. rewrite HL in IH. exact IH.
Qed.

(** C3.  A turn of the running update loop that comes less than
    [updateInterval] (50 ms) after [lastUpdateTime] does nothing but
    request the next animation frame: the arrays, [lastUpdateTime] and
    every other field but the frame handle are as before, and the
    analyser is not sampled and the callback not invoked.  Hence,
    through any sequence of calls and animation frames, two samples of
    the frequency data are never less than 50 ms apart. *)
Theorem update_throttled :
  (forall (env : Env) (st : State),
      isAnalyzing st = true ->
      (Date_now env - lastUpdateTime st < updateInterval)%Z ->
      updateFrequencyData env st
      = (set_animationFrame (Some (nextFrame env)) st,
         [RequestAnimationFrame (nextFrame env)])) /\
  (forall (cs : list (Call * Env)) (st : State) (i j : nat),
      let ts := sampleTimes (snd (run cs st)) in
      (i < j < length ts)%nat ->
      (updateInterval <= nth j ts 0%Z - nth i ts 0%Z)%Z).
Proof.
  split.
  - intros env st Hrun Ht. unfold updateFrequencyData. rewrite Hrun. simpl.
    apply Z.ltb_lt in Ht. rewrite Ht. reflexivity.
  - intros cs st i j ts Hij.
    apply (spacedFrom_pairwise (lastUpdateTime st)); [apply run_spaced | exact Hij].
Qed.

Lemma smoothing_applied_witness :
  isAnalyzing (demoStarted x00) = true /\
  (updateInterval <= Date_now (demoEnv 1100 xff) - lastUpdateTime (demoStarted x00))%Z /\
  sameLength (demoStarted x00) /\
  nth 0 (smoothedFrequencyData
           (fst (updateFrequencyData (demoEnv 1100 xff) (demoStarted x00)))) 0
  = smoothingFactor * byteR xff
    + (1 - smoothingFactor) * nth 0 (smoothedFrequencyData (demoStarted x00)) 0.
Proof.
  assert (H1 : isAnalyzing (demoStarted x00) = true) by reflexivity.
  assert (H2 : (updateInterval
                <= Date_now (demoEnv 1100 xff) - lastUpdateTime (demoStarted x00))%Z)
    by (simpl; unfold updateInterval; lia).
  assert (H3 : firstAnalyser (demoEnv 1100 xff) = Some (demoAnalyser xff))
    by reflexivity.
  assert (H4 : sameLength (demoStarted x00)) by reflexivity.
  split; [exact H1|]. split; [exact H2|]. split; [exact H4|].
  exact (proj2 (smoothing_applied (demoEnv 1100 xff) (demoStarted x00)
                                  (demoAnalyser xff) H1 H2 H3 H4)
               0%nat ltac:(simpl; lia)).
Defined.

(** When the analyser's bin count has changed, the arrays are
    allocated afresh before the smoothing loop and the values the bins
    had are dropped: after a first frame that left 38.25 in every one
    of 16 bins, a frame of 32 silent bins leaves 0 in bin 0, not
    [0.15 * 0 + 0.85 * 38.25]. *)
Lemma smoothing_forgets_on_reallocation :
  isAnalyzing (demoStarted xff) = true /\
  (updateInterval <= Date_now (wideEnv 2000 x00) - lastUpdateTime (demoStarted xff))%Z /\
  firstAnalyser (wideEnv 2000 x00) = Some (wideAnalyser x00) /\
  nth 0 (smoothedFrequencyData
           (fst (updateFrequencyData (wideEnv 2000 x00) (demoStarted xff)))) 0
  <> smoothingFactor * byteR (nth 0 (byteFrequencyData (wideAnalyser x00)) x00)
     + (1 - smoothingFactor) * nth 0 (smoothedFrequencyData (demoStarted xff)) 0.
Proof.
  split; [reflexivity|]. split; [simpl; unfold updateInterval; lia|].
  split; [reflexivity|].
  cbn. change (byteR "000") with 0. change (byteR "255") with 255.
  unfold smoothingFactor. lra.
Qed.

Lemma update_throttled_witness :
  isAnalyzing (demoStarted x00) = true /\
  (Date_now (demoEnv 1030 xff) - lastUpdateTime (demoStarted x00) < updateInterval)%Z /\
  updateFrequencyData (demoEnv 1030 xff) (demoStarted x00)
  = (set_animationFrame (Some 1%Z) (demoStarted x00), [RequestAnimationFrame 1%Z]).
Proof.
  assert (H1 : isAnalyzing (demoStarted x00) = true) by reflexivity.
  assert (H2 : (Date_now (demoEnv 1030 xff) - lastUpdateTime (demoStarted x00)
                < updateInterval)%Z)
    by (simpl; unfold updateInterval; lia).
  split; [exact H1|]. split; [exact H2|].
  exact (proj1 update_throttled (demoEnv 1030 xff) (demoStarted x00) H1 H2).
Defined.

Example first_frame_smoothed :
  nth 0 (getFrequencyData (demoStarted xff)) 0
  = 15 / 100 * 255 + (1 - 15 / 100) * 0.
Proof. reflexivity. Qed.

Example frames_sampled :
  sampleTimes
    (snd (run [ (CallStart (Some 7%nat), demoEnv 1000 xff);
                (AnimationFrame, demoEnv 1016 xff);
                (AnimationFrame, demoEnv 1049 xff);
                (AnimationFrame, demoEnv 1050 xff);
                (CallStop, demoEnv 1060 xff);
                (CallStart None, demoEnv 1070 xff);
                (AnimationFrame, demoEnv 1100 xff) ]
              (constructor (demoEnv 0 x00))))
  = [1000; 1050; 1100]%Z.
Proof. reflexivity. Qed.

Example callback_invoked :
  snd (updateFrequencyData (demoEnv 1100 xff)
         (fst (start (demoEnv 1000 x00) (Some 7%nat) (constructor (demoEnv 0 x00)))))
  = [GetByteFrequencyData 1100; InvokeCallback 7; RequestAnimationFrame 1].
Proof. reflexivity. Qed.

(** *** What the exposed data depends on *)

Lemma byteR_xff : byteR xff = 255.
Proof. reflexivity. Qed.

Lemma byteR_x00 : byteR x00 = 0.
Proof. reflexivity. Qed.

(** Two runs that differ only in the sample of an earlier frame (all
    bins 255 against all bins 0) and then receive the same sample
    expose different data: [32.5125] against [0] in bin 0. *)
Lemma exposed_data_differs :
  getFrequencyData (fst (updateFrequencyData (demoEnv 2000 x00) (demoStarted xff)))
  <> getFrequencyData (fst (updateFrequencyData (demoEnv 2000 x00) (demoStarted x00))).
Proof.
  intros H. apply (f_equal (fun l => nth 0 l 0)) in H.
  cbn in H. rewrite byteR_xff, byteR_x00 in H.
  unfold smoothingFactor in H. lra.
Qed.

(** C4, as the code has it.  In a turn of the update loop that performs
    the update and finds an analyser, the raw byte array is that
    frame's sample and nothing else, whatever came before.  The
    smoothed array [getFrequencyData] exposes is not: two runs that
    receive the same sample expose equal data when their smoothed
    arrays were equal before the turn, and in general bin [i] of the
    two differs by [1 - smoothingFactor] (0.85) times the difference of
    the values the bin had before (zero after a re-allocation). *)
Theorem exposed_data_history :
  forall (env : Env) (st1 st2 : State) (analyser : AnalyserNode),
    isAnalyzing st1 = true -> isAnalyzing st2 = true ->
    (updateInterval <= Date_now env - lastUpdateTime st1)%Z ->
    (updateInterval <= Date_now env - lastUpdateTime st2)%Z ->
    firstAnalyser env = Some analyser ->
    sameLength st1 -> sameLength st2 ->
    let sample := byteFrequencyData analyser in
    let st1' := fst (updateFrequencyData env st1) in
    let st2' := fst (updateFrequencyData env st2) in
    let before (st : State) (i : nat) :=
      if (length (frequencyData st) =? length sample)%nat
      then nth i (smoothedFrequencyData st) 0 else 0 in
    frequencyData st1' = sample /\
    frequencyData st2' = sample /\
    (smoothedFrequencyData st1 = smoothedFrequencyData st2 ->
     getFrequencyData st1' = getFrequencyData st2') /\
    (forall i : nat,
        (i < length sample)%nat ->
        nth i (getFrequencyData st1') 0 - nth i (getFrequencyData st2') 0
        = (1 - smoothingFactor) * (before st1 i - before st2 i)).
Proof.
  intros env st1 st2 analyser Hr1 Hr2 Ht1 Ht2 Han Hw1 Hw2 sample st1' st2' before.
  destruct (update_arrays env st1 analyser Hr1 Ht1 Han Hw1) as (Hf1 & Hs1 & _).
  destruct (update_arrays env st2 analyser Hr2 Ht2 Han Hw2) as (Hf2 & Hs2 & _).
  fold sample st1' in Hf1, Hs1. fold sample st2' in Hf2, Hs2.
  split; [exact Hf1|]. split; [exact Hf2|]. unfold getFrequencyData. split.
  - intros Heq. rewrite Hs1, Hs2.
    assert (Hl : length (frequencyData st1) = length (frequencyData st2)).
    { unfold sameLength in *. rewrite <- Hw1, <- Hw2, Heq. reflexivity. }
    rewrite Hl, Heq. reflexivity.
  - intros i Hi. rewrite Hs1, Hs2. unfold before.
    assert (Hnth : forall st, sameLength st ->
              nth i (smoothLoop sample
                       (if (length (frequencyData st) =? length sample)%nat
                        then smoothedFrequencyData st
                        else new_Float32Array (length sample))) 0
              = smoothingFactor * byteR (nth i sample x00)
                + (1 - smoothingFactor)
                  * (if (length (frequencyData st) =? length sample)%nat
                     then nth i (smoothedFrequencyData st) 0 else 0)).
    { intros st Hw. destruct (length (frequencyData st) =? length sample)%nat eqn:E.
      - apply Nat.eqb_eq in E. apply smoothLoop_nth; [|exact Hi].
        unfold sameLength in Hw. congruence.
      - unfold new_Float32Array.
        rewrite smoothLoop_nth by (rewrite ?repeat_length; auto).
        rewrite nth_repeat. reflexivity. }
    rewrite (Hnth st1 Hw1), (Hnth st2 Hw2). ring.
Qed.

Lemma exposed_data_history_witness :
  frequencyData (fst (updateFrequencyData (demoEnv 2000 x00) (demoStarted xff)))
  = repeat x00 16 /\
  frequencyData (fst (updateFrequencyData (demoEnv 2000 x00) (demoStarted x00)))
  = repeat x00 16.
Proof.
  assert (H1 : isAnalyzing (demoStarted xff) = true) by reflexivity.
  assert (H2 : isAnalyzing (demoStarted x00) = true) by reflexivity.
  assert (H3 : (updateInterval
                <= Date_now (demoEnv 2000 x00) - lastUpdateTime (demoStarted xff))%Z)
    by (simpl; unfold updateInterval; lia).
  assert (H4 : (updateInterval
                <= Date_now (demoEnv 2000 x00) - lastUpdateTime (demoStarted x00))%Z)
    by (simpl; unfold updateInterval; lia).
  assert (H5 : firstAnalyser (demoEnv 2000 x00) = Some (demoAnalyser x00))
    by reflexivity.
  assert (H6 : sameLength (demoStarted xff)) by reflexivity.
  assert (H7 : sameLength (demoStarted x00)) by reflexivity.
  pose proof (exposed_data_history (demoEnv 2000 x00) (demoStarted xff)
                (demoStarted x00) (demoAnalyser x00) H1 H2 H3 H4 H5 H6 H7) as H.
  split; [exact (proj1 H) | exact (proj1 (proj2 H))].
Defined.

(** *** Floors, ceilings and logarithms *)

Lemma Math_floor_bounds (x : R) :
  IZR (Math_floor x) <= x < IZR (Math_floor x) + 1.
Proof.
  unfold Math_floor. destruct (base_Int_part x) as [H1 H2]. lra.
Qed.

Lemma Math_ceil_bounds (x : R) :
  IZR (Math_ceil x) - 1 < x <= IZR (Math_ceil x).
Proof.
  unfold Math_ceil. destruct (base_Int_part (- x)) as [H1 H2].
  rewrite opp_IZR. lra.
Qed.

Lemma Math_floor_IZR (z : Z) : Math_floor (IZR z) = z.
Proof.
  unfold Math_floor. symmetry. apply Int_part_spec. lra.
Qed.

Lemma Math_ceil_IZR (z : Z) : Math_ceil (IZR z) = z.
Proof.
  unfold Math_ceil. rewrite <- opp_IZR.
  change (Int_part (IZR (- z))) with (Math_floor (IZR (- z))).
  rewrite Math_floor_IZR. lia.
Qed.

Lemma ln_10_pos : 0 < ln 10.
Proof. rewrite <- ln_1. apply ln_increasing; lra. Qed.

Lemma Math_pow_log10 (x : R) : 0 < x -> Math_pow 10 (Math_log10 x) = x.
Proof.
  intros Hx. unfold Math_pow, Math_log10, Rpower.
  replace (ln x / ln 10 * ln 10) with (ln x)
    by (field; apply Rgt_not_eq, ln_10_pos).
  apply exp_ln. exact Hx.
Qed.

Lemma Math_log10_pow (y : R) : Math_log10 (Math_pow 10 y) = y.
Proof.
  unfold Math_pow, Math_log10, Rpower. rewrite ln_exp.
  field. apply Rgt_not_eq, ln_10_pos.
Qed.

Lemma Math_log10_increasing (a b : R) :
  0 < a -> a < b -> Math_log10 a < Math_log10 b.
Proof.
  intros Ha Hab. unfold Math_log10.
  apply Rmult_lt_compat_r.
  - apply Rinv_0_lt_compat, ln_10_pos.
  - apply ln_increasing; assumption.
Qed.

Lemma Math_pow_10_increasing (a b : R) :
  a < b -> Math_pow 10 a < Math_pow 10 b.
Proof.
  intros Hab. unfold Math_pow, Rpower. apply exp_increasing.
  apply Rmult_lt_compat_r; [apply ln_10_pos | exact Hab].
Qed.

Lemma Math_pow_10_pos (y : R) : 0 < Math_pow 10 y.
Proof. unfold Math_pow, Rpower. apply exp_pos. Qed.

(** *** The logarithmic axis *)

(** C8.  [frequencyToX] and [xToFrequency] are inverse to each other on
    a canvas of positive width: a positive frequency mapped to a
    position and back is the frequency, and a position mapped to a
    frequency and back is the position (over the real numbers). *)
Theorem axis_roundtrip :
  forall (f x w : R),
    0 < f -> 0 < w ->
    xToFrequency (frequencyToX f w) w = f /\
    frequencyToX (xToFrequency x w) w = x.
Proof.
  intros f x w Hf Hw.
  assert (HD : Math_log10 maxFreq - Math_log10 minFreq <> 0).
  { assert (Math_log10 minFreq < Math_log10 maxFreq)
      by (apply Math_log10_increasing; unfold minFreq, maxFreq; lra).
    lra. }
  split.
  - unfold xToFrequency, frequencyToX.
    replace (Math_log10 minFreq +
             (Math_log10 f - Math_log10 minFreq)
             / (Math_log10 maxFreq - Math_log10 minFreq) * w / w
             * (Math_log10 maxFreq - Math_log10 minFreq))
      with (Math_log10 f) by (field; split; [exact HD | lra]).
    apply Math_pow_log10. exact Hf.
  - unfold xToFrequency, frequencyToX. rewrite Math_log10_pow.
    field. split; [lra | exact HD].
Qed.

Lemma axis_roundtrip_witness :
  xToFrequency (frequencyToX 440 800) 800 = 440 /\
  frequencyToX (xToFrequency 100 800) 800 = 100.
Proof.
  apply (axis_roundtrip 440 100 800); lra.
Defined.

(** *** The lookup at a single frequency *)

Lemma frequencyToBin_integer env st f :
  frequencyToBin env st f = IZR (nearestBin env st f).
Proof.
  unfold frequencyToBin, nearestBin. destruct (firstAnalyser env); reflexivity.
Qed.

Lemma get_or_0_empty (i : Z) : get_or_0 [] i = 0.
Proof.
  unfold get_or_0. destruct (i <? 0)%Z; [reflexivity|].
  destruct (Z.to_nat i); reflexivity.
Qed.

(** C10.  The bin index [frequencyToBin] returns is an integer, the
    rounding of [f * fftSize / sampleRate]; so its floor and its ceiling
    are the same, the interpolation fraction is zero, and
    [getFrequencyAmplitude] returns the smoothed value of that single
    bin, the index clamped into the range from [0] to [length - 1]: it
    is a nearest-bin lookup. *)
Theorem interpolation_degenerate :
  forall (env : Env) (st : State) (f : R),
    let binIndex := frequencyToBin env st f in
    binIndex = IZR (nearestBin env st f) /\
    Math_floor binIndex = Math_ceil binIndex /\
    binIndex - IZR (Math_floor binIndex) = 0 /\
    getFrequencyAmplitude env st f = nearestBinLookup env st f.
Proof.
  intros env st f binIndex.
  assert (Hb : binIndex = IZR (nearestBin env st f))
    by apply frequencyToBin_integer.
  split; [exact Hb|]. rewrite Hb.
  rewrite Math_floor_IZR, Math_ceil_IZR.
  split; [reflexivity|]. split; [lra|].
  unfold getFrequencyAmplitude, nearestBinLookup, clampIndex.
  fold binIndex. rewrite Hb.
  set (z := nearestBin env st f).
  set (sm := smoothedFrequencyData st).
  set (maxBin := (Z.of_nat (length sm) - 1)%Z).
  rewrite Math_floor_IZR, Math_ceil_IZR.
  destruct (Rle_dec (IZR z) 0) as [Hle|Hgt].
  - apply le_IZR in Hle. f_equal. lia.
  - assert (Hz : (0 < z)%Z) by (apply lt_IZR; lra).
    destruct (Rge_dec (IZR z) (IZR maxBin)) as [Hge|Hlt].
    + apply Rge_le, le_IZR in Hge.
      destruct sm as [|v sm'] eqn:Esm.
      * rewrite !get_or_0_empty. reflexivity.
      * f_equal. unfold maxBin in *. simpl length in *. lia.
    + assert (Hzm : (z < maxBin)%Z) by (apply lt_IZR; lra).
      replace (Z.max 0 (Z.min z maxBin)) with z by lia.
      ring.
Qed.

(** *** Bounds on the bars *)

Lemma get_or_0_range (sm : list R) :
  Forall (fun v => 0 <= v <= 255) sm ->
  forall b : Z, 0 <= get_or_0 sm b <= 255.
Proof.
  intros Hall b. unfold get_or_0. destruct (b <? 0)%Z; [lra|].
  destruct (Nat.lt_ge_cases (Z.to_nat b) (length sm)) as [Hlt|Hge].
  - apply (proj1 (Forall_nth _ sm) Hall). exact Hlt.
  - rewrite nth_overflow by exact Hge. lra.
Qed.

Lemma averagingLoop_bounds (sm : list R) (s e r : R) (totalBins : Z) :
  0 < r ->
  (forall b : Z, 0 <= get_or_0 sm b <= 255) ->
  forall (n : nat) (bin : Z) (acc : R * R),
    0 <= fst acc <= 255 * snd acc -> 0 <= snd acc ->
    let acc' := averagingLoop sm s e r totalBins n bin acc in
    0 <= fst acc' <= 255 * snd acc' /\ 0 <= snd acc'.
Proof.
  intros Hr Hv. induction n as [|n IH]; intros bin acc Hacc Hw; simpl.
  - split; assumption.
  - destruct (totalBins <=? bin)%Z; [split; assumption|].
    apply IH.
    + destruct (Rlt_dec 0 _) as [Hov|Hov]; [|exact Hacc]. simpl.
      match goal with
      | |- context [get_or_0 sm bin * (?ov / r)] =>
          assert (Hwt : 0 < ov / r) by (apply Rdiv_lt_0_compat; assumption);
          set (w := ov / r) in *
      end.
      specialize (Hv bin). nra.
    + destruct (Rlt_dec 0 _) as [Hov|Hov]; [|exact Hw]. simpl.
      match goal with
      | |- 0 <= snd acc + ?ov / r =>
          assert (Hwt : 0 < ov / r) by (apply Rdiv_lt_0_compat; assumption)
      end.
      lra.
Qed.

Lemma getAveragedFrequencyAmplitude_range (st : State) (s e r : R) (totalBins : Z) :
  binsInByteRange st -> 0 <= s -> 0 < r ->
  0 <= getAveragedFrequencyAmplitude st s e r totalBins <= 255.
Proof.
  intros Hall Hs Hr.
  pose proof (get_or_0_range _ Hall) as Hv.
  unfold getAveragedFrequencyAmplitude.
  set (sm := smoothedFrequencyData st) in *.
  assert (Hq : 0 <= s / r).
  { apply Rmult_le_pos; [exact Hs|]. left. apply Rinv_0_lt_compat. exact Hr. }
  assert (HF : (0 <= Math_floor (s / r))%Z).
  { destruct (Math_floor_bounds (s / r)) as [_ H2].
    assert (-1 < Math_floor (s / r))%Z by (apply lt_IZR; lra).
    lia. }
  replace (Z.max 0 (Math_floor (s / r))) with (Math_floor (s / r)) by lia.
  destruct (_ =? _)%Z.
  - destruct (_ <? _)%Z; [|apply Hv].
    destruct (Math_floor_bounds (s / r)) as [H1 H2].
    set (fr := s / r - IZR (Math_floor (s / r))).
    assert (Hfr : 0 <= fr < 1) by (unfold fr; lra).
    pose proof (Hv (Math_floor (s / r))) as Ha.
    pose proof (Hv (Math_floor (s / r) + 1)%Z) as Hb.
    nra.
  - pose proof (averagingLoop_bounds sm s e r totalBins Hr Hv
                  (Z.to_nat (Z.min (totalBins - 1) (Math_ceil (e / r))
                             - Math_floor (s / r) + 1))
                  (Math_floor (s / r)) (0, 0)) as Hl.
    simpl in Hl. specialize (Hl ltac:(lra) ltac:(lra)).
    destruct (averagingLoop _ _ _ _ _ _ _ _) as [ws tw]. simpl in Hl.
    destruct (Rlt_dec 0 tw) as [Htw|Htw]; [|lra].
    destruct Hl as [[Hl1 Hl2] _].
    split.
    + apply Rmult_le_pos; [exact Hl1|]. left. apply Rinv_0_lt_compat. exact Htw.
    + apply (Rmult_le_reg_r tw); [exact Htw|].
      unfold Rdiv. rewrite Rmult_assoc, Rinv_l by lra. lra.
Qed.

Lemma Math_log10_unit (v : R) : 1 <= v <= 10 -> 0 <= Math_log10 v <= 1.
Proof.
  intros [H1 H10]. unfold Math_log10. pose proof ln_10_pos as Hp.
  assert (Hlo : 0 <= ln v).
  { destruct H1 as [H1 | <-]; [|rewrite ln_1; lra].
    rewrite <- ln_1. left. apply ln_increasing; lra. }
  assert (Hhi : ln v <= ln 10).
  { destruct H10 as [H10 | ->]; [|lra]. left. apply ln_increasing; lra. }
  split.
  - apply Rmult_le_pos; [exact Hlo|]. left. apply Rinv_0_lt_compat. exact Hp.
  - apply (Rmult_le_reg_r (ln 10)); [exact Hp|].
    unfold Rdiv. rewrite Rmult_assoc, Rinv_l by lra. lra.
Qed.

Lemma spectrumBar_range (st : State)
    (canvasHeight barWidth maxDisplayFreq r : R) (totalBins : Z)
    (logMin logMax : R) (i : nat) :
  binsInByteRange st -> 0 < r -> 0 <= canvasHeight ->
  let bar := spectrumBar st canvasHeight barWidth maxDisplayFreq r totalBins
                         logMin logMax i in
  0 <= amplitude bar <= 1 /\ 0 <= height bar <= 9 / 10 * canvasHeight.
Proof.
  intros Hall Hr Hch. unfold spectrumBar. simpl.
  match goal with
  | |- context [getAveragedFrequencyAmplitude st ?s ?e r totalBins] =>
      pose proof (getAveragedFrequencyAmplitude_range st s e r totalBins Hall
                    (Rlt_le _ _ (Math_pow_10_pos _)) Hr) as Hamp;
      set (amp := getAveragedFrequencyAmplitude st s e r totalBins) in *
  end.
  assert (Ha : 0 <= amp / 255 <= 1) by lra.
  split; [exact Ha|].
  destruct (Rlt_dec 0 (amp / 255)) as [Hpos|Hnp].
  - pose proof (Math_log10_unit (amp / 255 * 9 + 1) ltac:(lra)) as Hlog.
    set (la := Math_log10 (amp / 255 * 9 + 1)) in *.
    split; [apply Rmax_l|].
    apply Rmax_lub; nra.
  - split; [apply Rmax_l|]. apply Rmax_lub; lra.
Qed.

Lemma displayParameters_positive env st :
  positiveParameters env st ->
  0 < fst (fst (displayParameters env st)) /\
  0 < snd (fst (displayParameters env st))
      / IZR (snd (displayParameters env st)).
Proof.
  unfold positiveParameters, displayParameters.
  destruct (firstAnalyser env) as [a|]; simpl; intros [Hsr Hfft].
  - split.
    + apply Rmin_glb_lt; unfold maxFreq; lra.
    + apply Rdiv_lt_0_compat; [exact Hsr | apply IZR_lt; exact Hfft].
  - split.
    + unfold maxFreq; lra.
    + apply Rdiv_lt_0_compat; [exact Hsr | apply IZR_lt; exact Hfft].
Qed.

(** *** The bins of a running analyzer are in the range of a byte *)

Lemma byteR_range (b : byte) : 0 <= byteR b <= 255.
Proof.
  unfold byteR. pose proof (Byte.to_N_bounded b) as H.
  split; apply IZR_le; lia.
Qed.

Lemma zeros_in_range (n : nat) :
  Forall (fun v => 0 <= v <= 255) (new_Float32Array n).
Proof.
  unfold new_Float32Array. apply Forall_forall. intros v Hv.
  apply repeat_spec in Hv. subst v. lra.
Qed.

Lemma smoothLoop_range (fd : list byte) (sm : list R) :
  length sm = length fd ->
  Forall (fun v => 0 <= v <= 255) sm ->
  Forall (fun v => 0 <= v <= 255) (smoothLoop fd sm).
Proof.
  intros Hlen Hall. apply Forall_nth. intros i d Hi.
  rewrite smoothLoop_length in Hi.
  rewrite (nth_indep _ d 0) by (rewrite smoothLoop_length; exact Hi).
  rewrite smoothLoop_nth by (try exact Hlen; lia).
  pose proof (byteR_range (nth i fd x00)) as Hb.
  pose proof (proj1 (Forall_nth _ sm) Hall i 0 Hi) as Hv. simpl in Hv.
  unfold smoothingFactor. lra.
Qed.

Lemma updateFrequencyData_invariant env st :
  invariant st -> invariant (fst (updateFrequencyData env st)).
Proof.
  intros (Hlen & Hall & Hsr & Hfft).
  split; [apply updateFrequencyData_sameLength; exact Hlen|].
  unfold binsInByteRange in *. unfold updateFrequencyData.
  destruct (isAnalyzing st); simpl; [|repeat split; assumption].
  destruct (_ <? _)%Z; simpl; [repeat split; assumption|].
  destruct (firstAnalyser env) as [a|]; simpl; [|repeat split; assumption].
  destruct (negb _) eqn:E; simpl; (split; [|split; assumption]).
  - rewrite copyLoop_copies by (unfold new_Uint8Array; apply repeat_length).
    apply smoothLoop_range; [|apply zeros_in_range].
    unfold new_Float32Array. apply repeat_length.
  - apply Bool.negb_false_iff, Nat.eqb_eq in E.
    rewrite copyLoop_copies by exact E.
    apply smoothLoop_range; [|exact Hall].
    unfold sameLength in Hlen. congruence.
Qed.

Lemma updateAnalyserProperties_invariant env st :
  validEnv env -> invariant st -> invariant (updateAnalyserProperties env st).
Proof.
  intros Henv (Hlen & Hall & Hsr & Hfft).
  split; [apply updateAnalyserProperties_sameLength; exact Hlen|].
  unfold updateAnalyserProperties, firstAnalyser, validEnv, binsInByteRange in *.
  destruct (getAnalysers env) as [|a rest]; [repeat split; assumption|].
  inversion Henv as [|a' rest' [Ha1 Ha2] _]; subst. simpl.
  split; [|split; assumption].
  destruct (negb _); [apply zeros_in_range | exact Hall].
Qed.

Lemma constructor_invariant env : validEnv env -> invariant (constructor env).
Proof.
  intros Henv. unfold constructor. apply updateAnalyserProperties_invariant;
    [exact Henv|].
  repeat split; simpl; try lra; try lia.
  apply (zeros_in_range 128).
Qed.

Lemma call_invariant c env st :
  validEnv env -> invariant st -> invariant (fst (call c env st)).
Proof.
  intros Henv Hinv. destruct c as [onUpdate| | |]; simpl.
  - unfold start. destruct (isAnalyzing st); [exact Hinv|].
    apply (updateAnalyserProperties_invariant env) in Hinv; [|exact Henv].
    apply updateFrequencyData_invariant.
    destruct Hinv as (H1 & H2 & H3 & H4). split; [|split; [|split]]; assumption.
  - destruct Hinv as (H1 & H2 & H3 & H4). split; [|split; [|split]]; assumption.
  - destruct Hinv as (H1 & H2 & H3 & H4).
    split; [|split; [|split; assumption]].
    + unfold dispose, sameLength. simpl. rewrite !length_map. exact H1.
    + unfold dispose, binsInByteRange. simpl. apply Forall_forall.
      intros v Hv. apply in_map_iff in Hv. destruct Hv as (? & <- & _). lra.
  - apply updateFrequencyData_invariant. exact Hinv.
Qed.

Lemma run_invariant cs st :
  Forall (fun ce => validEnv (snd ce)) cs ->
  invariant st -> invariant (fst (run cs st)).
Proof.
  revert st. induction cs as [|[c env] cs IH]; intros st Hcs Hinv; simpl.
  - exact Hinv.
  - inversion Hcs as [|? ? Henv Hrest]; subst. simpl in Henv.
    pose proof (call_invariant c env st Henv Hinv) as H1.
    destruct (call c env st) as [st1 evs1]. simpl in H1.
    specialize (IH st1 Hrest H1).
    destruct (run cs st1) as [st2 evs2]. exact IH.
Qed.

Lemma invariant_positiveParameters env st :
  validEnv env -> invariant st -> positiveParameters env st.
Proof.
  intros Henv (_ & _ & Hsr & Hfft).
  unfold positiveParameters, displayParameters, firstAnalyser, validEnv in *.
  destruct (getAnalysers env) as [|a rest]; [split; assumption|].
  inversion Henv as [|a' rest' Ha _]; subst. exact Ha.
Qed.

(** *** The amplitude of a bar as a weighted average *)

Lemma binOverlap_nonneg s e r b : 0 <= binOverlap s e r b.
Proof. unfold binOverlap. apply Rmax_l. Qed.

Lemma binOverlap_below s e r b :
  0 < r -> (b + 1 <= Math_floor (s / r))%Z -> binOverlap s e r b = 0.
Proof.
  intros Hr Hb. unfold binOverlap.
  destruct (Math_floor_bounds (s / r)) as [HF _].
  apply IZR_le in Hb.
  assert (Hle : IZR (b + 1) * r <= s).
  { replace s with (s / r * r) by (field; lra).
    apply Rmult_le_compat_r; lra. }
  apply Rmax_left.
  pose proof (Rmin_r e (IZR (b + 1) * r)).
  pose proof (Rmax_l s (IZR b * r)). lra.
Qed.

Lemma binOverlap_above s e r b :
  0 < r -> (Math_ceil (e / r) <= b)%Z -> binOverlap s e r b = 0.
Proof.
  intros Hr Hb. unfold binOverlap.
  destruct (Math_ceil_bounds (e / r)) as [_ HC].
  apply IZR_le in Hb.
  assert (Hle : e <= IZR b * r).
  { replace e with (e / r * r) by (field; lra).
    apply Rmult_le_compat_r; lra. }
  apply Rmax_left.
  pose proof (Rmin_l e (IZR (b + 1) * r)).
  pose proof (Rmax_r s (IZR b * r)). lra.
Qed.

Lemma sumOverBins_app f n m from :
  sumOverBins f (n + m) from
  = sumOverBins f n from + sumOverBins f m (from + Z.of_nat n)%Z.
Proof.
  revert from. induction n as [|n IH]; intros from.
  - simpl. replace (from + 0)%Z with from by lia. lra.
  - cbn [Nat.add sumOverBins]. rewrite IH.
    replace (from + 1 + Z.of_nat n)%Z with (from + Z.of_nat (S n))%Z by lia.
    lra.
Qed.

Lemma sumOverBins_ext f g n from :
  (forall b, (from <= b < from + Z.of_nat n)%Z -> f b = g b) ->
  sumOverBins f n from = sumOverBins g n from.
Proof.
  revert from. induction n as [|n IH]; intros from H; simpl; [reflexivity|].
  rewrite H by lia. rewrite IH; [reflexivity|].
  intros b Hb. apply H. lia.
Qed.

Lemma sumOverBins_zero f n from :
  (forall b, (from <= b < from + Z.of_nat n)%Z -> f b = 0) ->
  sumOverBins f n from = 0.
Proof.
  revert from. induction n as [|n IH]; intros from H; simpl; [reflexivity|].
  rewrite H by lia. rewrite IH; [lra|].
  intros b Hb. apply H. lia.
Qed.

Lemma sumOverBins_scale f r n from :
  sumOverBins (fun b => f b / r) n from = sumOverBins f n from / r.
Proof.
  revert from. induction n as [|n IH]; intros from; simpl.
  - unfold Rdiv. ring.
  - rewrite IH. unfold Rdiv. ring.
Qed.

Lemma sumOverBins_nonneg f n from :
  (forall b, 0 <= f b) -> 0 <= sumOverBins f n from.
Proof.
  intros H. revert from. induction n as [|n IH]; intros from; simpl; [lra|].
  specialize (H from). specialize (IH (from + 1)%Z). lra.
Qed.

(** A sum over the bins [0], ..., [n - 1] of a function that vanishes
    outside the bins [lo], ..., [hi] is the sum over those. *)
Lemma sumOverBins_window f (n : nat) (lo hi : Z) :
  (0 <= lo)%Z -> (lo <= hi + 1)%Z -> (hi < Z.of_nat n)%Z ->
  (forall b, (0 <= b < lo)%Z -> f b = 0) ->
  (forall b, (hi < b < Z.of_nat n)%Z -> f b = 0) ->
  sumOverBins f n 0 = sumOverBins f (Z.to_nat (hi - lo + 1)) lo.
Proof.
  intros Hlo Hhi Hn Hbelow Habove.
  replace n with (Z.to_nat lo + (Z.to_nat (hi - lo + 1)
                                 + Z.to_nat (Z.of_nat n - 1 - hi)))%nat by lia.
  rewrite !sumOverBins_app.
  rewrite (sumOverBins_zero f (Z.to_nat lo)) by (intros b Hb; apply Hbelow; lia).
  rewrite (sumOverBins_zero f (Z.to_nat (Z.of_nat n - 1 - hi)))
    by (intros b Hb; apply Habove; lia).
  replace (0 + Z.of_nat (Z.to_nat lo))%Z with lo by lia. lra.
Qed.

Lemma averagingLoop_sum (sm : list R) (s e r : R) (totalBins : Z) :
  forall (n : nat) (bin : Z) (acc : R * R),
    (bin + Z.of_nat n <= totalBins)%Z ->
    averagingLoop sm s e r totalBins n bin acc
    = (fst acc + sumOverBins (fun b => get_or_0 sm b * (binOverlap s e r b / r)) n bin,
       snd acc + sumOverBins (fun b => binOverlap s e r b / r) n bin).
Proof.
  induction n as [|n IH]; intros bin acc Hn.
  - simpl. destruct acc as [ws tw]. simpl. f_equal; lra.
  - cbn [averagingLoop sumOverBins].
    replace (totalBins <=? bin)%Z with false by (symmetry; apply Z.leb_gt; lia).
    change (Rmax 0 (Rmin e (IZR (bin + 1) * r) - Rmax s (IZR bin * r)))
      with (binOverlap s e r bin).
    rewrite IH by lia.
    destruct (Rlt_dec 0 (binOverlap s e r bin)) as [Hov|Hov]; simpl.
    + f_equal; lra.
    + assert (H0 : binOverlap s e r bin = 0)
        by (pose proof (binOverlap_nonneg s e r bin); lra).
      rewrite H0. unfold Rdiv. f_equal; ring.
Qed.

Lemma binOverlap_first s e r :
  0 < r -> s < e -> 0 < binOverlap s e r (Math_floor (s / r)).
Proof.
  intros Hr Hse. unfold binOverlap.
  destruct (Math_floor_bounds (s / r)) as [H1 H2].
  set (F := Math_floor (s / r)) in *.
  assert (Hlo : IZR F * r <= s).
  { replace s with (s / r * r) by (field; lra).
    apply Rmult_le_compat_r; lra. }
  assert (Hhi : s < IZR (F + 1) * r).
  { rewrite plus_IZR. replace s with (s / r * r) by (field; lra).
    apply Rmult_lt_compat_r; lra. }
  rewrite (Rmax_left s (IZR F * r)) by exact Hlo.
  assert (s < Rmin e (IZR (F + 1) * r)) by (apply Rmin_glb_lt; assumption).
  apply Rlt_le_trans with (Rmin e (IZR (F + 1) * r) - s); [lra | apply Rmax_r].
Qed.

(** On an increasing range of non-negative frequencies the value
    [getAveragedFrequencyAmplitude] computes is the overlap-weighted
    average of the bins. *)
Lemma getAveragedFrequencyAmplitude_refines (st : State) (s e r : R) :
  0 <= s -> s < e -> 0 < r ->
  getAveragedFrequencyAmplitude st s e r
    (Z.of_nat (length (smoothedFrequencyData st)))
  = overlapWeightedAverage (smoothedFrequencyData st) s e r.
Proof.
  intros Hs Hse Hr.
  unfold getAveragedFrequencyAmplitude, overlapWeightedAverage.
  set (sm := smoothedFrequencyData st).
  set (N := Z.of_nat (length sm)).
  set (F := Math_floor (s / r)).
  set (C := Math_ceil (e / r)).
  assert (Hinv : 0 < / r) by (apply Rinv_0_lt_compat; exact Hr).
  assert (Hq : 0 <= s / r) by (apply Rmult_le_pos; lra).
  assert (Hqq : s / r < e / r) by (apply Rmult_lt_compat_r; lra).
  destruct (Math_floor_bounds (s / r)) as [HF1 HF2]. fold F in HF1, HF2.
  destruct (Math_ceil_bounds (e / r)) as [HC1 HC2]. fold C in HC1, HC2.
  assert (HF0 : (0 <= F)%Z).
  { assert (-1 < F)%Z by (apply lt_IZR; lra). lia. }
  assert (HFC : (F < C)%Z) by (apply lt_IZR; lra).
  replace (Z.max 0 F) with F by lia.
  destruct (Z_le_gt_dec N F) as [Hout|Hin].
  - (* the range starts above the last bin *)
    replace (Z.min (N - 1) C) with (N - 1)%Z by lia.
    replace (F =? N - 1)%Z with false by (symmetry; apply Z.eqb_neq; lia).
    replace (Z.to_nat (N - 1 - F + 1)) with 0%nat by lia.
    cbn [averagingLoop].
    rewrite (sumOverBins_zero (binOverlap s e r))
      by (intros b Hb; apply binOverlap_below; [exact Hr | fold F; lia]).
    destruct (Rlt_dec 0 0); [lra|reflexivity].
  - set (hi := Z.min (N - 1) C).
    assert (Hwin : forall f,
               (forall b, binOverlap s e r b = 0 -> f b = 0) ->
               sumOverBins f (length sm) 0
               = sumOverBins f (Z.to_nat (hi - F + 1)) F).
    { intros f Hf. apply sumOverBins_window; try (unfold hi; fold N; lia).
      - intros b Hb. apply Hf, binOverlap_below; [exact Hr | fold F; lia].
      - intros b Hb. fold N in Hb. apply Hf, binOverlap_above;
          [exact Hr | fold C; unfold hi in Hb; lia]. }
    rewrite (Hwin (binOverlap s e r)) by auto.
    rewrite (Hwin (fun b => get_or_0 sm b * binOverlap s e r b))
      by (intros b Hb; rewrite Hb; ring).
    destruct (Z.eqb_spec F hi) as [Heq|Hne].
    + (* only the last bin is left *)
      assert (HFN : F = (N - 1)%Z) by (unfold hi in Heq; lia).
      replace (F <? N - 1)%Z with false by (symmetry; apply Z.ltb_ge; lia).
      replace (Z.to_nat (hi - F + 1)) with 1%nat by lia.
      cbn [sumOverBins].
      pose proof (binOverlap_first s e r Hr Hse) as Hov. fold F in Hov.
      destruct (Rlt_dec 0 (binOverlap s e r F + 0)) as [_|Hn]; [|lra].
      field. lra.
    + rewrite averagingLoop_sum by (unfold hi in *; lia).
      cbn [fst snd].
      rewrite (sumOverBins_ext
                 (fun b => get_or_0 sm b * (binOverlap s e r b / r))
                 (fun b => get_or_0 sm b * binOverlap s e r b / r))
        by (intros b _; unfold Rdiv; ring).
      rewrite !sumOverBins_scale.
      set (T := sumOverBins (binOverlap s e r) _ F).
      set (W := sumOverBins (fun b => get_or_0 sm b * binOverlap s e r b) _ F).
      destruct (Rlt_dec 0 (0 + T / r)) as [H1|H1],
               (Rlt_dec 0 T) as [H2|H2].
      * field. split; lra.
      * exfalso. apply H2.
        replace T with ((0 + T / r) * r) by (field; lra).
        apply Rmult_lt_0_compat; assumption.
      * exfalso. apply H1.
        replace (0 + T / r) with (T * / r) by (unfold Rdiv; ring).
        apply Rmult_lt_0_compat; assumption.
      * reflexivity.
Qed.

Lemma INR_numBars : INR numBars = 100.
Proof. unfold numBars. rewrite INR_IZR_INZ. reflexivity. Qed.

Lemma barFrequency_eq maxDisplayFreq i :
  Math_pow 10 (Math_log10 minFreq
               + INR i / INR numBars
                 * (Math_log10 maxDisplayFreq - Math_log10 minFreq))
  = barFrequency maxDisplayFreq i.
Proof. unfold barFrequency, Math_pow, minFreq. rewrite INR_numBars. reflexivity. Qed.

Lemma barFrequency_last maxDisplayFreq :
  0 < maxDisplayFreq -> barFrequency maxDisplayFreq 100 = maxDisplayFreq.
Proof.
  intros H. unfold barFrequency.
  change (INR 100) with (INR numBars). rewrite INR_numBars.
  replace (Math_log10 20 + 100 / 100 * (Math_log10 maxDisplayFreq - Math_log10 20))
    with (Math_log10 maxDisplayFreq) by field.
  apply Math_pow_log10. exact H.
Qed.

Lemma barFrequency_pos maxDisplayFreq i : 0 < barFrequency maxDisplayFreq i.
Proof. apply Math_pow_10_pos. Qed.

Lemma barFrequency_increasing maxDisplayFreq i :
  20 < maxDisplayFreq ->
  barFrequency maxDisplayFreq i < barFrequency maxDisplayFreq (i + 1).
Proof.
  intros H. unfold barFrequency. apply Math_pow_10_increasing.
  assert (HD : Math_log10 20 < Math_log10 maxDisplayFreq)
    by (apply Math_log10_increasing; lra).
  rewrite plus_INR. simpl (INR 1). nra.
Qed.

(** The bars, one by one. *)
Lemma generateSpectrumBars_nth env st cw ch i :
  (i < numBars)%nat ->
  nth_error (generateSpectrumBars env st cw ch) i
  = Some (spectrumBar st ch (cw / INR numBars) (displayedMaxFreq env)
            (binWidth env st) (Z.of_nat (length (smoothedFrequencyData st)))
            (Math_log10 minFreq) (Math_log10 (displayedMaxFreq env)) i).
Proof.
  intros Hi. unfold generateSpectrumBars, displayParameters, displayedMaxFreq,
    binWidth, maxFreq.
  destruct (firstAnalyser env) as [a|];
    rewrite nth_error_map, nth_error_seq;
    (replace (i <? numBars)%nat with true by (symmetry; apply Nat.ltb_lt; exact Hi));
    reflexivity.
Qed.

Lemma binWidth_positive env st :
  positiveParameters env st -> 0 < binWidth env st.
Proof.
  unfold positiveParameters, displayParameters, binWidth.
  destruct (firstAnalyser env) as [a|]; intros [Hsr Hfft];
    (apply Rdiv_lt_0_compat; [exact Hsr | apply IZR_lt; exact Hfft]).
Qed.

(** The amplitude of bar [i]: the overlap-weighted average over its
    frequency range, over 255. *)
Lemma spectrumBar_amplitude env st ch bw i :
  (i < numBars)%nat ->
  positiveParameters env st ->
  20 < displayedMaxFreq env ->
  amplitude (spectrumBar st ch bw (displayedMaxFreq env) (binWidth env st)
               (Z.of_nat (length (smoothedFrequencyData st)))
               (Math_log10 minFreq) (Math_log10 (displayedMaxFreq env)) i)
  = overlapWeightedAverage (smoothedFrequencyData st)
      (barFrequency (displayedMaxFreq env) i)
      (barFrequency (displayedMaxFreq env) (i + 1))
      (binWidth env st) / 255.
Proof.
  intros Hi Hpos Hmax. unfold spectrumBar. cbn [amplitude].
  rewrite !barFrequency_eq.
  assert (Hnext : (if (i =? numBars - 1)%nat then displayedMaxFreq env
                   else barFrequency (displayedMaxFreq env) (i + 1))
                  = barFrequency (displayedMaxFreq env) (i + 1)).
  { destruct (Nat.eqb_spec i (numBars - 1)) as [->|_]; [|reflexivity].
    symmetry. apply (barFrequency_last (displayedMaxFreq env)). lra. }
  rewrite Hnext.
  rewrite getAveragedFrequencyAmplitude_refines.
  - reflexivity.
  - left. apply barFrequency_pos.
  - apply barFrequency_increasing. exact Hmax.
  - apply binWidth_positive. exact Hpos.
Qed.

(** C2, as the code has it.  [generateSpectrumBars] returns exactly
    [numBars] (100) bars.  Bar [i] has [x = i * canvasWidth / 100],
    [width = canvasWidth / 100 - 1] and
    [frequency = 10 ^ (log10 20 + (i / 100) * (log10 maxDisplayFreq - log10 20))],
    where [maxDisplayFreq] is the minimum of 20000 and half the sample
    rate when an analyser is available and 20000 otherwise.  Its
    amplitude is normalised: for a positive sample rate and FFT size and
    [maxDisplayFreq] above 20, it is the overlap-weighted average of
    the smoothed bin values over the range from bar [i]'s frequency to
    bar [i + 1]'s, divided by 255. *)
Theorem bars_log_bucketing :
  forall (env : Env) (st : State) (canvasWidth canvasHeight : R),
    let bars := generateSpectrumBars env st canvasWidth canvasHeight in
    let maxDisplayFreq := displayedMaxFreq env in
    length bars = 100%nat /\
    forall i : nat,
      (i < 100)%nat ->
      exists bar : SpectrumBar,
        nth_error bars i = Some bar /\
        x bar = INR i * canvasWidth / 100 /\
        width bar = canvasWidth / 100 - 1 /\
        frequency bar = barFrequency maxDisplayFreq i /\
        (positiveParameters env st -> 20 < maxDisplayFreq ->
         amplitude bar
         = overlapWeightedAverage (smoothedFrequencyData st)
             (barFrequency maxDisplayFreq i)
             (barFrequency maxDisplayFreq (i + 1))
             (binWidth env st) / 255).
Proof.
  intros env st cw ch bars maxDisplayFreq. split.
  - unfold bars, generateSpectrumBars.
    destruct (displayParameters env st) as [[m sr] fft].
    rewrite length_map, length_seq. reflexivity.
  - intros i Hi. eexists. split.
    + apply generateSpectrumBars_nth. exact Hi.
    + split; [|split; [|split]].
      * unfold spectrumBar. cbn [x]. rewrite INR_numBars. unfold Rdiv. ring.
      * unfold spectrumBar. cbn [width]. rewrite INR_numBars. reflexivity.
      * unfold spectrumBar. cbn [frequency]. apply barFrequency_eq.
      * intros Hpos Hmax. apply spectrumBar_amplitude; assumption.
Qed.

Lemma demo_positiveParameters b t :
  positiveParameters (demoEnv t b) (demoStarted b).
Proof. unfold positiveParameters. simpl. split; [lra | lia]. Defined.

Lemma demo_displayedMaxFreq b t : 20 < displayedMaxFreq (demoEnv t b).
Proof. unfold displayedMaxFreq. simpl. apply Rmin_glb_lt; lra. Defined.

Lemma bars_log_bucketing_witness :
  length (generateSpectrumBars (demoEnv 2000 xff) (demoStarted xff) 800 400)
  = 100%nat /\
  exists bar : SpectrumBar,
    nth_error (generateSpectrumBars (demoEnv 2000 xff) (demoStarted xff) 800 400) 0
    = Some bar /\
    amplitude bar
    = overlapWeightedAverage (smoothedFrequencyData (demoStarted xff))
        (barFrequency (displayedMaxFreq (demoEnv 2000 xff)) 0)
        (barFrequency (displayedMaxFreq (demoEnv 2000 xff)) 1)
        (binWidth (demoEnv 2000 xff) (demoStarted xff)) / 255.
Proof.
  destruct (bars_log_bucketing (demoEnv 2000 xff) (demoStarted xff) 800 400)
    as [Hlen Hbars].
  split; [exact Hlen|].
  destruct (Hbars 0%nat ltac:(lia)) as (bar & Hnth & _ & _ & _ & Hamp).
  exists bar. split; [exact Hnth|].
  apply Hamp; [apply demo_positiveParameters | apply demo_displayedMaxFreq].
Defined.

(** *** An average of equal values *)

Lemma sumOverBins_mult c f n from :
  sumOverBins (fun b => c * f b) n from = c * sumOverBins f n from.
Proof.
  revert from. induction n as [|n IH]; intros from; simpl; [ring|].
  rewrite IH. ring.
Qed.

Lemma overlapWeightedAverage_constant (sm : list R) (s e r c : R) :
  (forall b, (0 <= b < Z.of_nat (length sm))%Z -> get_or_0 sm b = c) ->
  0 < sumOverBins (binOverlap s e r) (length sm) 0 ->
  overlapWeightedAverage sm s e r = c.
Proof.
  intros Hc HT. unfold overlapWeightedAverage.
  rewrite (sumOverBins_ext (fun b => get_or_0 sm b * binOverlap s e r b)
                           (fun b => c * binOverlap s e r b))
    by (intros b Hb; rewrite Hc by lia; reflexivity).
  rewrite sumOverBins_mult.
  destruct (Rlt_dec 0 _) as [_|Hn]; [|contradiction].
  field. lra.
Qed.

Lemma totalOverlap_pos (s e r : R) (n : nat) :
  0 <= s -> s < e -> 0 < r ->
  (Math_floor (s / r) < Z.of_nat n)%Z ->
  0 < sumOverBins (binOverlap s e r) n 0.
Proof.
  intros Hs Hse Hr HF.
  assert (HF0 : (0 <= Math_floor (s / r))%Z).
  { destruct (Math_floor_bounds (s / r)) as [_ H2].
    assert (0 <= s / r).
    { apply Rmult_le_pos; [exact Hs|]. left. apply Rinv_0_lt_compat. exact Hr. }
    assert (-1 < Math_floor (s / r))%Z by (apply lt_IZR; lra). lia. }
  replace n with (Z.to_nat (Math_floor (s / r))
                  + (1 + (n - Z.to_nat (Math_floor (s / r)) - 1)))%nat by lia.
  rewrite !sumOverBins_app. cbn [sumOverBins].
  replace (0 + Z.of_nat (Z.to_nat (Math_floor (s / r))))%Z
    with (Math_floor (s / r)) by lia.
  pose proof (binOverlap_first s e r Hr Hse).
  pose proof (sumOverBins_nonneg (binOverlap s e r)
                (Z.to_nat (Math_floor (s / r))) 0 (binOverlap_nonneg s e r)).
  pose proof (sumOverBins_nonneg (binOverlap s e r)
                (n - Z.to_nat (Math_floor (s / r)) - 1)
                (Math_floor (s / r) + Z.of_nat 1) (binOverlap_nonneg s e r)).
  lra.
Qed.

Lemma barFrequency_first maxDisplayFreq : barFrequency maxDisplayFreq 0 = 20.
Proof.
  unfold barFrequency. simpl (INR 0).
  replace (Math_log10 20 + 0 / 100 * (Math_log10 maxDisplayFreq - Math_log10 20))
    with (Math_log10 20) by field.
  apply Math_pow_log10. lra.
Qed.

Lemma get_or_0_all (sm : list R) (c : R) :
  Forall (fun v => v = c) sm ->
  forall b, (0 <= b < Z.of_nat (length sm))%Z -> get_or_0 sm b = c.
Proof.
  intros Hall b Hb. unfold get_or_0.
  replace (b <? 0)%Z with false by (symmetry; apply Z.ltb_ge; lia).
  apply (proj1 (Forall_nth _ sm) Hall). lia.
Qed.

(** After a first frame that read 255 in every bin the smoothed bins
    hold 38.25; the amplitude of the first bar is then 0.15, while the
    overlap-weighted average of the bins over its range is 38.25. *)
Lemma bar_amplitude_not_average :
  exists bar : SpectrumBar,
    nth_error (generateSpectrumBars (demoEnv 2000 xff) (demoStarted xff) 800 400) 0
    = Some bar /\
    amplitude bar
    <> overlapWeightedAverage (smoothedFrequencyData (demoStarted xff))
         (barFrequency (displayedMaxFreq (demoEnv 2000 xff)) 0)
         (barFrequency (displayedMaxFreq (demoEnv 2000 xff)) 1)
         (binWidth (demoEnv 2000 xff) (demoStarted xff)).
Proof.
  eexists. split.
  - apply generateSpectrumBars_nth. unfold numBars. lia.
  - rewrite (spectrumBar_amplitude (demoEnv 2000 xff) (demoStarted xff));
      [| unfold numBars; lia
       | apply demo_positiveParameters
       | apply demo_displayedMaxFreq].
    change (0 + 1)%nat with 1%nat.
    set (m := displayedMaxFreq (demoEnv 2000 xff)).
    assert (Hm : 20 < m) by apply demo_displayedMaxFreq.
    assert (Hr : binWidth (demoEnv 2000 xff) (demoStarted xff) = 1500).
    { unfold binWidth. simpl. lra. }
    rewrite Hr.
    assert (Havg : overlapWeightedAverage (smoothedFrequencyData (demoStarted xff))
                     (barFrequency m 0) (barFrequency m 1) 1500
                   = smoothingFactor * 255 + (1 - smoothingFactor) * 0).
    { apply overlapWeightedAverage_constant.
      - apply get_or_0_all. cbn. rewrite byteR_xff.
        repeat (constructor; [reflexivity|]). constructor.
      - apply totalOverlap_pos.
        + left. apply barFrequency_pos.
        + apply (barFrequency_increasing m 0). exact Hm.
        + lra.
        + rewrite barFrequency_first.
          destruct (Math_floor_bounds (20 / 1500)) as [H1 _].
          assert (Math_floor (20 / 1500) < 1)%Z by (apply lt_IZR; lra).
          change (length (smoothedFrequencyData (demoStarted xff))) with 16%nat.
          lia. }
    rewrite Havg. unfold smoothingFactor. lra.
Qed.

(** *** Bars below full scale *)









End SpectrumAnalyzerFacts.

(* ================================================================== *)
(** ** More on the error logger: logs over time *)
(* ================================================================== *)

Module ErrorLoggerMore.
Import ErrorLogger ErrorLoggerFacts.

Local Open Scope string_scope.
Local Open Scope list_scope.
Local Open Scope nat_scope.

Lemma lastEntries_app {A : Type} (n : nat) (l m : list A) :
  lastEntries n (lastEntries n l ++ m) = lastEntries n (l ++ m).
Proof.
  unfold lastEntries. rewrite !length_app, length_skipn.
  destruct (Nat.le_gt_cases (List.length l) n) as [Hle|Hgt].
  - replace (List.length l - n) with 0 by lia. simpl.
    rewrite Nat.sub_0_r. reflexivity.
  - replace (List.length l - (List.length l - n) + List.length m - n)
      with (List.length m) by lia.
    replace (List.length l + List.length m - n)
      with (List.length m + (List.length l - n)) by lia.
    rewrite <- skipn_skipn. rewrite (skipn_app (List.length l - n)).
    replace (List.length l - n - List.length l) with 0 by lia.
    reflexivity.
Qed.

Lemma stored_after_logError isProd log key st :
  stored_or_empty key (logError isProd log key st)
  = lastEntries maxLogLength (stored_or_empty key st ++ [flagged isProd log]).
Proof.
  rewrite logError_unfold. unfold stored_or_empty at 1.
  rewrite store_get_set_same. apply truncated_lastEntries.
Qed.

Section Sequences.
Context {X : Type} (prod : X -> bool) (entry : X -> ErrorLog) (key : LogKey).

Lemma logged_in_turn (xs : list X) (st : Store) :
  xs <> [] ->
  let st' := fold_left (fun st x => logError (prod x) (entry x) key st) xs st in
  store_get key st'
  = Some (lastEntries maxLogLength
            (stored_or_empty key st
             ++ map (fun x => flagged (prod x) (entry x)) xs)) /\
  forall key', key <> key' -> store_get key' st' = store_get key' st.
Proof.
  revert st. induction xs as [|x xs IH]; intros st Hne; [congruence|].
  simpl fold_left. destruct xs as [|y ys].
  - simpl. rewrite logError_unfold. rewrite store_get_set_same.
    rewrite truncated_lastEntries. split; [reflexivity|].
    intros key' Hk. apply store_get_set_other. exact Hk.
  - destruct (IH (logError (prod x) (entry x) key st) ltac:(discriminate))
      as [Hget Hother].
    split.
    + rewrite Hget. rewrite stored_after_logError.
      rewrite lastEntries_app. rewrite <- app_assoc. reflexivity.
    + intros key' Hk. rewrite (Hother key' Hk).
      rewrite logError_unfold. apply store_get_set_other. exact Hk.
Qed.
End Sequences.

Lemma fold_left_skip {S X : Type} (q : X -> bool) (g : S -> X -> S)
    (xs : list X) (st : S) :
  fold_left (fun st x => if q x then g st x else st) xs st
  = fold_left g (filter q xs) st.
Proof.
  revert st. induction xs as [|x xs IH]; intros st; simpl; [reflexivity|].
  destruct (q x); simpl; apply IH.
Qed.

Lemma handler_cases env err st :
  uncaughtExceptionHandler env err st
  = if passesFilter err
    then logError (isProd env) (createLog env err) main st
    else st.
Proof.
  unfold uncaughtExceptionHandler, passesFilter, ERROR_FILTER. simpl.
  destruct (includes (err_message err) _); reflexivity.
Qed.

(** X1.  Entries logged one after the other under a key leave there the
    last 250 of: the log stored before, followed by the new entries in
    order (flagged outside production); the other keys are untouched. *)
Theorem logErrors_keeps_latest :
  forall (isProd : bool) (logs : list ErrorLog) (key : LogKey) (error_log : Store),
    logs <> [] ->
    store_get key (logErrors isProd logs key error_log)
    = Some (lastEntries maxLogLength
              (stored_or_empty key error_log ++ map (flagged isProd) logs)) /\
    forall key', key <> key' ->
      store_get key' (logErrors isProd logs key error_log)
      = store_get key' error_log.
Proof.
  intros isProd logs key error_log Hne.
  apply (logged_in_turn (fun _ => isProd) (fun log => log) key logs error_log Hne).
Qed.

Lemma logErrors_keeps_latest_witness :
  store_get main (logErrors true [createLog demoProcess enoentError;
                                  createLog demoProcess enoentError] main fullStore)
  = Some (lastEntries maxLogLength
            (stored_or_empty main fullStore
             ++ map (flagged true) [createLog demoProcess enoentError;
                                    createLog demoProcess enoentError])).
Proof.
  apply (logErrors_keeps_latest true _ main fullStore). discriminate.
Defined.

(** X2.  The "uncaughtException" listener run on a series of exceptions
    changes nothing when all of them are filtered; otherwise the "main"
    log ends up as the last 250 of the old log followed by the entries
    of the exceptions that pass the filter, in order, and the other
    keys are untouched. *)
Theorem handleAll_logs_unfiltered :
  forall (events : list (ProcessEnv * JsError)) (error_log : Store),
    let kept := filter (fun ev => passesFilter (snd ev)) events in
    (kept = [] -> handleAll events error_log = error_log) /\
    (kept <> [] ->
     store_get main (handleAll events error_log)
     = Some (lastEntries maxLogLength
               (stored_or_empty main error_log
                ++ map (fun ev => flagged (isProd (fst ev))
                                          (createLog (fst ev) (snd ev))) kept)) /\
     store_get renderer (handleAll events error_log) = store_get renderer error_log /\
     store_get request (handleAll events error_log) = store_get request error_log).
Proof.
  intros events error_log kept.
  assert (Hfold : handleAll events error_log
                  = fold_left (fun st ev => logError (isProd (fst ev))
                                              (createLog (fst ev) (snd ev)) main st)
                              kept error_log).
  { unfold handleAll, kept.
    rewrite <- (fold_left_skip (fun ev => passesFilter (snd ev))).
    revert error_log. induction events as [|ev events IH]; intros st; simpl;
      [reflexivity|].
    rewrite handler_cases. apply IH. }
  split.
  - intros Hk. rewrite Hfold, Hk. reflexivity.
  - intros Hk. rewrite Hfold.
    destruct (logged_in_turn (fun ev => isProd (fst ev))
                (fun ev => createLog (fst ev) (snd ev)) main kept error_log Hk)
      as [Hget Hother].
    split; [exact Hget|]. split; apply Hother; discriminate.
Qed.

Lemma handleAll_logs_unfiltered_witness :
  handleAll [(demoProcess, enoentError)] fullStore = fullStore /\
  store_get main (handleAll [(demoProcess, enoentError); (demoProcess, typeError)]
                            emptyStore)
  = Some [createLog demoProcess typeError].
Proof.
  split.
  - apply (proj1 (handleAll_logs_unfiltered [(demoProcess, enoentError)] fullStore)).
    reflexivity.
  - apply (proj2 (handleAll_logs_unfiltered
                    [(demoProcess, enoentError); (demoProcess, typeError)]
                    emptyStore)).
    discriminate.
Defined.

End ErrorLoggerMore.

(* ================================================================== *)
(** ** More on the screen enumeration *)
(* ================================================================== *)

Module ScreensMore.
Import Screens ScreensFacts.

Local Open Scope string_scope.
Local Open Scope list_scope.

Lemma getScreens_fulfilled type env sources :
  getSources env type = Fulfilled sources ->
  fst (getScreens type env)
  = Resolved (map entryOfSource sources ++
              match type with
              | window => ownWindowEntries env sources
              | screen => []
              end).
Proof.
  intros H. unfold getScreens, onSources. rewrite H.
  rewrite (push_all (fun source =>
                       {| name := Some (src_name source);
                          id := Some (src_id source) |}) sources []).
  change (fun source => {| name := Some (src_name source);
                           id := Some (src_id source) |})
    with entryOfSource.
  simpl app. destruct type; simpl.
  - rewrite addFreeShowWindows_spec. reflexivity.
  - rewrite app_nil_r. reflexivity.
Qed.

Lemma in_freeShowWindows env w :
  mainWindow env = Some w \/
  (exists output, In output (getAllOutputs env) /\ out_window output = Some w) ->
  In (Some w) (freeShowWindows env).
Proof.
  unfold freeShowWindows. intros [Hm | (o & Hin & Ho)].
  - left. exact Hm.
  - right. apply in_flat_map. exists o. split; [exact Hin|].
    rewrite Ho. left. reflexivity.
Qed.

Lemma alreadyCaptured_spec sources w :
  alreadyCaptured sources (Some w) = true <->
  exists source, In source sources /\ src_id source = getMediaSourceId w.
Proof.
  unfold alreadyCaptured. rewrite existsb_exists. simpl.
  split; intros (source & Hin & H); exists source; (split; [exact Hin|]).
  - apply String.eqb_eq. exact H.
  - apply String.eqb_eq. exact H.
Qed.

(** X3.  When the capture succeeds, the list [Main.GET_WINDOWS] resolves
    with has an entry for every window of FreeShow - the main window and
    the window of every output that has one - under its media source id,
    whether the capturer reported it or not. *)
Theorem GET_WINDOWS_covers_own_windows :
  forall (env : Env) (sources : list DesktopCapturerSource) (w : BrowserWindow),
    getSources env window = Fulfilled sources ->
    (mainWindow env = Some w \/
     exists output, In output (getAllOutputs env) /\ out_window output = Some w) ->
    exists entries,
      fst (GET_WINDOWS env) = Resolved entries /\
      exists e, In e entries /\ id e = Some (getMediaSourceId w).
Proof.
  intros env sources w Hsrc Hw. unfold GET_WINDOWS.
  rewrite (getScreens_fulfilled window env sources Hsrc).
  eexists. split; [reflexivity|].
  destruct (alreadyCaptured sources (Some w)) eqn:E.
  - apply alreadyCaptured_spec in E. destruct E as (source & Hin & Hid).
    exists (entryOfSource source). split.
    + apply in_or_app. left. apply in_map. exact Hin.
    + simpl. rewrite Hid. reflexivity.
  - exists (entryOfWindow (Some w)). split; [|reflexivity].
    apply in_or_app. right. unfold ownWindowEntries. apply in_map.
    apply filter_In. split; [apply in_freeShowWindows; exact Hw|].
    rewrite E. reflexivity.
Qed.

Lemma GET_WINDOWS_covers_own_windows_witness :
  exists entries,
    fst (GET_WINDOWS workingEnv) = Resolved entries /\
    exists e, In e entries /\ id e = Some (getMediaSourceId outputWindow).
Proof.
  apply (GET_WINDOWS_covers_own_windows workingEnv demoSources outputWindow).
  - reflexivity.
  - right. exists {| out_window := Some outputWindow |}. split; [|reflexivity].
    right. left. reflexivity.
Defined.

(** X4.  When the capture succeeds, the resolved list starts with the
    entries of the captured sources, in order, and whatever follows
    them is an own window the capturer did not report: such entries
    occur for type "window" only and carry an id that no captured
    source has. *)
Theorem getScreens_adds_only_missing :
  forall (type : SourceType) (env : Env) (sources : list DesktopCapturerSource)
         (entries : list ScreenEntry),
    getSources env type = Fulfilled sources ->
    fst (getScreens type env) = Resolved entries ->
    firstn (length sources) entries = map entryOfSource sources /\
    forall e, In e (skipn (length sources) entries) ->
      type = window /\
      forall source, In source sources -> id e <> Some (src_id source).
Proof.
  intros type env sources entries Hsrc Hres.
  rewrite (getScreens_fulfilled type env sources Hsrc) in Hres.
  injection Hres as <-.
  assert (Hlen : length (map entryOfSource sources) = length sources)
    by apply length_map.
  split.
  - rewrite <- Hlen. rewrite firstn_app, firstn_all, Nat.sub_diag.
    simpl. apply app_nil_r.
  - intros e He. rewrite <- Hlen in He.
    rewrite skipn_app, skipn_all, Nat.sub_diag in He. simpl in He.
    destruct type; [|contradiction].
    split; [reflexivity|].
    unfold ownWindowEntries in He. apply in_map_iff in He.
    destruct He as (w & <- & Hw). apply filter_In in Hw.
    destruct Hw as [_ Hnew]. apply Bool.negb_true_iff in Hnew.
    intros source Hin Hid. unfold alreadyCaptured in Hnew.
    assert (Ht : existsb (fun a => String_eqb_opt (src_id a)
                                     (option_map getMediaSourceId w)) sources = true).
    { apply existsb_exists. exists source. split; [exact Hin|].
      simpl in Hid. rewrite Hid. simpl. apply String.eqb_refl. }
    congruence.
Qed.

Lemma getScreens_adds_only_missing_witness :
  firstn (length demoSources)
         [ {| name := Some "FreeShow"; id := Some "window:1:0" |};
           {| name := Some "Browser"; id := Some "window:3:0" |};
           {| name := Some "Output"; id := Some "window:7:0" |} ]
  = map entryOfSource demoSources.
Proof.
  apply (getScreens_adds_only_missing window workingEnv demoSources);
    reflexivity.
Defined.

End ScreensMore.

(* ================================================================== *)
(** ** Properties of the recorder *)
(* ================================================================== *)

Module RecorderFacts.
Import Recorder.

Local Open Scope list_scope.

Lemma session_opened env msgs :
  session env msgs true = (true, map (writeOf env) msgs).
Proof.
  induction msgs as [|msg rest IH]; simpl; [reflexivity|].
  rewrite IH. reflexivity.
Qed.

(** X5.  Through a session of recordings every recording is written to
    its file, in order, and the recordings folder is opened in the
    system once only: right after the first write, for the folder of
    the first recording; once it has been opened it is never opened
    again. *)
Theorem recordings_folder_opened_once :
  forall (env : Env) (msgs : list Msg),
    session env msgs true = (true, map (writeOf env) msgs) /\
    session env msgs false
    = match msgs with
      | [] => (false, [])
      | first :: rest =>
          (true, writeOf env first :: OpenInSystem (folderOf env first)
                 :: map (writeOf env) rest)
      end /\
    forall opened, length (filter isOpen (snd (session env msgs opened))) <= 1.
Proof.
  intros env msgs.
  assert (Hwrites : forall l, filter isOpen (map (writeOf env) l) = []).
  { induction l as [|m l IH]; simpl; [reflexivity | exact IH]. }
  assert (Hclosed : session env msgs false
                    = match msgs with
                      | [] => (false, [])
                      | first :: rest =>
                          (true, writeOf env first
                                 :: OpenInSystem (folderOf env first)
                                 :: map (writeOf env) rest)
                      end).
  { destruct msgs as [|first rest]; simpl; [reflexivity|].
    rewrite session_opened. reflexivity. }
  split; [apply session_opened|]. split; [exact Hclosed|].
  intros [|].
  - rewrite session_opened. simpl. rewrite Hwrites. simpl. lia.
  - rewrite Hclosed. destruct msgs as [|first rest]; simpl; [lia|].
    rewrite Hwrites. simpl. lia.
Qed.

End RecorderFacts.

(* ================================================================== *)
(** ** Properties of the scripture loader *)
(* ================================================================== *)

Module ScriptureFacts.
Import Scripture.

Local Open Scope string_scope.
Local Open Scope list_scope.






End ScriptureFacts.

(* ================================================================== *)
(** ** More on the spectrum analyzer *)
(* ================================================================== *)

Module SpectrumAnalyzerMore.
Import SpectrumAnalyzer SpectrumAnalyzerFacts.

Local Open Scope R_scope.

(** *** What holds of every analyzer *)

Lemma updateAnalyserProperties_range env st :
  binsInByteRange st -> binsInByteRange (updateAnalyserProperties env st).
Proof.
  unfold updateAnalyserProperties, binsInByteRange. intros H.
  destruct (firstAnalyser env) as [a|]; simpl; [|exact H].
  destruct (negb _); [apply zeros_in_range | exact H].
Qed.

Lemma updateFrequencyData_range env st :
  sameLength st -> binsInByteRange st ->
  binsInByteRange (fst (updateFrequencyData env st)).
Proof.
  intros Hlen Hall. unfold binsInByteRange in *. unfold updateFrequencyData.
  destruct (isAnalyzing st); simpl; [|exact Hall].
  destruct (_ <? _)%Z; simpl; [exact Hall|].
  destruct (firstAnalyser env) as [a|]; simpl; [|exact Hall].
  destruct (negb _) eqn:E; simpl.
  - rewrite copyLoop_copies by (unfold new_Uint8Array; apply repeat_length).
    apply smoothLoop_range; [|apply zeros_in_range].
    unfold new_Float32Array. apply repeat_length.
  - apply Bool.negb_false_iff, Nat.eqb_eq in E.
    rewrite copyLoop_copies by exact E.
    apply smoothLoop_range; [|exact Hall].
    unfold sameLength in Hlen. congruence.
Qed.

Lemma call_range c env st :
  sameLength st -> binsInByteRange st -> binsInByteRange (fst (call c env st)).
Proof.
  intros Hlen Hall. destruct c as [onUpdate| | |]; simpl.
  - unfold start. destruct (isAnalyzing st); [exact Hall|].
    apply updateFrequencyData_range.
    + apply (updateAnalyserProperties_sameLength env) in Hlen. exact Hlen.
    + apply (updateAnalyserProperties_range env) in Hall. exact Hall.
  - exact Hall.
  - unfold dispose, binsInByteRange. simpl. apply Forall_forall.
    intros v Hv. apply in_map_iff in Hv. destruct Hv as (? & <- & _). lra.
  - apply updateFrequencyData_range; assumption.
Qed.

Lemma run_shape cs st :
  sameLength st -> binsInByteRange st ->
  sameLength (fst (run cs st)) /\ binsInByteRange (fst (run cs st)).
Proof.
  revert st. induction cs as [|[c env] cs IH]; intros st Hlen Hall; simpl.
  - split; assumption.
  - pose proof (call_sameLength c env st Hlen) as H1.
    pose proof (call_range c env st Hlen Hall) as H2.
    destruct (call c env st) as [st1 evs1]. simpl in H1, H2.
    specialize (IH st1 H1 H2).
    destruct (run cs st1) as [st2 evs2]. exact IH.
Qed.

Lemma constructor_range env : binsInByteRange (constructor env).
Proof.
  unfold constructor. apply updateAnalyserProperties_range.
  apply (zeros_in_range 128).
Qed.

(** X7.  Whatever is done with an analyzer after its construction -
    calls of [start], [stop] and [dispose] and animation frames, in any
    order, in any surroundings - its two arrays have the same length and
    every value [getFrequencyData] exposes is between 0 and 255. *)
Theorem exposed_data_in_byte_range :
  forall (env0 : Env) (cs : list (Call * Env)),
    let st := fst (run cs (constructor env0)) in
    length (getFrequencyData st) = length (frequencyData st) /\
    forall i : nat, 0 <= nth i (getFrequencyData st) 0 <= 255.
Proof.
  intros env0 cs st.
  destruct (run_shape cs (constructor env0) (constructor_sameLength env0)
                      (constructor_range env0)) as [Hlen Hall].
  fold st in Hlen, Hall. split; [exact Hlen|].
  intros i. unfold getFrequencyData.
  destruct (Nat.lt_ge_cases i (length (smoothedFrequencyData st))) as [Hi|Hi].
  - apply (proj1 (Forall_nth _ _) Hall). exact Hi.
  - rewrite nth_overflow by exact Hi. lra.
Qed.

(** X8.  The bars drawn from an analyzer that was built by the
    constructor and then driven in any way, in surroundings whose
    analysers have a positive sample rate and FFT size, on a canvas of
    non-negative height, all have an amplitude between 0 and 1 and a
    height between 0 and 90% of the canvas height. *)
Theorem reachable_bars_bounded :
  forall (env0 env : Env) (cs : list (Call * Env))
         (canvasWidth canvasHeight : R) (bar : SpectrumBar),
    validEnv env0 ->
    Forall (fun ce => validEnv (snd ce)) cs ->
    validEnv env ->
    0 <= canvasHeight ->
    In bar (generateSpectrumBars env (fst (run cs (constructor env0)))
                                 canvasWidth canvasHeight) ->
    0 <= amplitude bar <= 1 /\ 0 <= height bar <= 9 / 10 * canvasHeight.
Proof.
  intros env0 env cs cw ch bar H0 Hcs Henv Hch Hin.
  pose proof (run_invariant cs _ Hcs (constructor_invariant env0 H0)) as Hinv.
  set (st := fst (run cs (constructor env0))) in *.
  pose proof (invariant_positiveParameters env st Henv Hinv) as Hpos.
  destruct (displayParameters_positive env st Hpos) as [Hmax Hres].
  destruct Hinv as (_ & Hall & _).
  unfold generateSpectrumBars in Hin.
  destruct (displayParameters env st) as [[maxDisplayFreq sr] fft].
  simpl in Hres.
  apply in_map_iff in Hin. destruct Hin as (i & <- & _).
  apply spectrumBar_range; assumption.
Qed.

Lemma demoEnv_valid t b : validEnv (demoEnv t b).
Proof.
  unfold validEnv. simpl. constructor; [|constructor]. simpl. split; [lra | lia].
Defined.

Lemma reachable_bars_bounded_witness :
  exists bar,
    nth_error (generateSpectrumBars (demoEnv 2000 xff) (demoStarted xff) 800 400) 5
    = Some bar /\
    0 <= amplitude bar <= 1.
Proof.
  eexists. split.
  - apply generateSpectrumBars_nth. unfold numBars. lia.
  - apply (reachable_bars_bounded (demoEnv 0 x00) (demoEnv 2000 xff)
             [(CallStart None, demoEnv 1000 xff)] 800 400).
    + apply demoEnv_valid.
    + constructor; [apply demoEnv_valid | constructor].
    + apply demoEnv_valid.
    + lra.
    + apply (nth_error_In _ 5).
      apply (generateSpectrumBars_nth (demoEnv 2000 xff) (demoStarted xff)).
      unfold numBars. lia.
Defined.

(** *** The life of the loop *)

Lemma stop_halted st : halted (fst (stop st)).
Proof.
  unfold halted, stop. simpl. split; [reflexivity|].
  destruct (animationFrame st) as [h|]; [|left; reflexivity].
  destruct (Z.eqb_spec h 0) as [->|Hne]; simpl; [right|left]; reflexivity.
Qed.

Lemma call_halted c env st :
  isStart c = false -> halted st ->
  halted (fst (call c env st)) /\ snd (call c env st) = [].
Proof.
  intros Hc [Hrun Hframe]. destruct c as [onUpdate| | |]; simpl in *;
    try discriminate.
  - split.
    + unfold halted, stop. simpl. split; [reflexivity|].
      destruct Hframe as [-> | ->]; simpl; [left | right]; reflexivity.
    + unfold stop. destruct Hframe as [-> | ->]; reflexivity.
  - split.
    + unfold halted, dispose, stop. simpl. split; [reflexivity|].
      destruct Hframe as [-> | ->]; simpl; [left | right]; reflexivity.
    + unfold dispose, stop. destruct Hframe as [-> | ->]; reflexivity.
  - unfold updateFrequencyData. rewrite Hrun. simpl.
    split; [split; [exact Hrun | exact Hframe] | reflexivity].
Qed.

(** X9.  Once [stop] has been called the analyzer is quiet until the
    next [start]: through any animation frames that still arrive and
    any further calls of [stop] and [dispose], the analyser is not
    sampled, the callback is not invoked, no frame is requested, and
    the analyzer stays stopped. *)
Theorem stopped_stays_quiet :
  forall (st : State) (cs : list (Call * Env)),
    Forall (fun ce => isStart (fst ce) = false) cs ->
    snd (run cs (fst (stop st))) = [] /\
    isRunning (fst (run cs (fst (stop st)))) = false.
Proof.
  intros st cs Hcs.
  assert (H : forall s, halted s ->
                snd (run cs s) = [] /\ halted (fst (run cs s))).
  { induction Hcs as [|[c env] cs Hc Hcs IH]; intros s Hs; simpl.
    - split; [reflexivity | exact Hs].
    - simpl in Hc. destruct (call_halted c env s Hc Hs) as [Hs1 He1].
      destruct (call c env s) as [s1 evs1]. simpl in Hs1, He1.
      destruct (IH s1 Hs1) as [He2 Hs2].
      destruct (run cs s1) as [s2 evs2]. simpl in *. subst. split; auto. }
  destruct (H _ (stop_halted st)) as [He [Hrun _]].
  split; [exact He | exact Hrun].
Qed.

Lemma stopped_stays_quiet_witness :
  snd (run [(AnimationFrame, demoEnv 1100 xff); (CallDispose, demoEnv 1200 xff)]
           (fst (stop (demoStarted xff)))) = [].
Proof.
  apply (stopped_stays_quiet (demoStarted xff)).
  repeat constructor.
Defined.

(** X10.  While the analyzer is running the loop keeps itself going,
    once: a call of [start] changes nothing and starts no second loop,
    and every turn of the loop leaves the analyzer running, requests
    exactly one animation frame, as the last thing it does, and
    remembers its handle. *)
Theorem running_loop_continues :
  forall (env : Env) (st : State) (onUpdate : option nat),
    isAnalyzing st = true ->
    start env onUpdate st = (st, []) /\
    isAnalyzing (fst (updateFrequencyData env st)) = true /\
    animationFrame (fst (updateFrequencyData env st)) = Some (nextFrame env) /\
    exists evs,
      snd (updateFrequencyData env st)
      = evs ++ [RequestAnimationFrame (nextFrame env)] /\
      filter isRequest evs = [].
Proof.
  intros env st onUpdate Hrun. split.
  - unfold start. rewrite Hrun. reflexivity.
  - unfold updateFrequencyData. rewrite Hrun. simpl.
    destruct (_ <? _)%Z; simpl.
    + split; [exact Hrun|]. split; [reflexivity|]. exists []. split; reflexivity.
    + destruct (firstAnalyser env) as [a|]; simpl.
      * destruct (negb _); simpl; (split; [exact Hrun|]);
          (split; [reflexivity|]);
          (destruct (onUpdateCallback st) as [cb|];
           [ exists [GetByteFrequencyData (Date_now env); InvokeCallback cb]
           | exists [GetByteFrequencyData (Date_now env)] ];
           split; reflexivity).
      * split; [exact Hrun|]. split; [reflexivity|]. exists [].
        split; reflexivity.
Qed.

Lemma running_loop_continues_witness :
  start (demoEnv 1100 xff) (Some 3%nat) (demoStarted xff) = (demoStarted xff, []).
Proof.
  apply (running_loop_continues (demoEnv 1100 xff) (demoStarted xff) (Some 3%nat)).
  reflexivity.
Defined.

(** *** Callbacks and samples *)

Lemma updateFrequencyData_effects env st :
  CallEffects (snd (updateFrequencyData env st)).
Proof.
  unfold updateFrequencyData.
  destruct (isAnalyzing st); simpl; [|constructor].
  destruct (_ <? _)%Z; simpl; [constructor|].
  destruct (firstAnalyser env) as [a|]; simpl; [|constructor].
  destruct (negb _); simpl; destruct (onUpdateCallback st); simpl; constructor.
Qed.

Lemma call_effects c env st : CallEffects (snd (call c env st)).
Proof.
  destruct c as [onUpdate| | |]; simpl.
  - unfold start. destruct (isAnalyzing st); [constructor|].
    apply updateFrequencyData_effects.
  - unfold stop. simpl. destruct (animationFrame st) as [h|]; [|constructor].
    destruct (negb _); constructor.
  - unfold dispose, stop. simpl.
    destruct (animationFrame st) as [h|]; [|constructor].
    destruct (negb _); constructor.
  - apply updateFrequencyData_effects.
Qed.

Lemma callbacksFollowSamples_app evs rest :
  CallEffects evs -> callbacksFollowSamples rest ->
  callbacksFollowSamples (evs ++ rest).
Proof.
  intros He Hrest. destruct He; simpl; exact Hrest.
Qed.

(** X11.  Through any sequence of calls and animation frames, from any
    state, the update callback is invoked only right after the analyser
    has been sampled: never on a throttled frame, never without an
    analyser, never twice for one sample. *)
Theorem callback_only_after_sample :
  forall (cs : list (Call * Env)) (st : State),
    callbacksFollowSamples (snd (run cs st)).
Proof.
  induction cs as [|[c env] cs IH]; intros st; simpl; [exact I|].
  pose proof (call_effects c env st) as He.
  destruct (call c env st) as [st1 evs1].
  specialize (IH st1). destruct (run cs st1) as [st2 evs2].
  simpl in *. apply callbacksFollowSamples_app; assumption.
Qed.

(** *** The lookup at a single frequency *)

(** X13.  When every smoothed bin value is between 0 and 255, the
    amplitude [getFrequencyAmplitude] returns is between 0 and 255 and
    the one [getNormalizedAmplitude] returns between 0 and 1, for every
    frequency and whatever the figures of the analyser. *)
Theorem lookup_in_range :
  forall (env : Env) (st : State) (f : R),
    binsInByteRange st ->
    0 <= getFrequencyAmplitude env st f <= 255 /\
    0 <= getNormalizedAmplitude env st f <= 1.
Proof.
  intros env st f Hall.
  pose proof (get_or_0_range _ Hall) as Hv.
  assert (H : 0 <= getFrequencyAmplitude env st f <= 255).
  { unfold getFrequencyAmplitude.
    destruct (Rle_dec _ _); [apply Hv|].
    destruct (Rge_dec _ _); [apply Hv|].
    set (b := frequencyToBin env st f).
    destruct (Math_floor_bounds b) as [H1 H2].
    pose proof (Hv (Math_floor b)) as Hlo.
    pose proof (Hv (Math_ceil b)) as Hhi.
    set (fr := b - IZR (Math_floor b)).
    assert (Hfr : 0 <= fr < 1) by (unfold fr; lra).
    nra. }
  split; [exact H|]. unfold getNormalizedAmplitude. lra.
Qed.

Lemma lookup_in_range_witness :
  0 <= getNormalizedAmplitude (demoEnv 2000 xff) (demoStarted xff) 440 <= 1.
Proof.
  apply (lookup_in_range (demoEnv 2000 xff) (demoStarted xff) 440).
  unfold binsInByteRange. cbn.
  repeat (constructor; [rewrite byteR_xff; unfold smoothingFactor; lra|]).
  constructor.
Defined.

(** *** The frequency axis and the bars on it *)

Lemma axis_span : 0 < Math_log10 maxFreq - Math_log10 minFreq.
Proof.
  assert (Math_log10 minFreq < Math_log10 maxFreq)
    by (apply Math_log10_increasing; unfold minFreq, maxFreq; lra).
  lra.
Qed.

(** X14.  On a canvas of positive width the axis is increasing in both
    directions and spans the canvas: [frequencyToX] sends 20 Hz to 0
    and 20000 Hz to the canvas width and a higher frequency further to
    the right, and [xToFrequency] sends a position further to the right
    to a higher frequency. *)
Theorem axis_increasing :
  forall (w f1 f2 x1 x2 : R),
    0 < w -> 0 < f1 -> f1 < f2 -> x1 < x2 ->
    frequencyToX 20 w = 0 /\
    frequencyToX 20000 w = w /\
    frequencyToX f1 w < frequencyToX f2 w /\
    xToFrequency x1 w < xToFrequency x2 w.
Proof.
  intros w f1 f2 x1 x2 Hw Hf1 Hf Hx.
  pose proof axis_span as HD.
  assert (Hinv : 0 < / (Math_log10 maxFreq - Math_log10 minFreq))
    by (apply Rinv_0_lt_compat; exact HD).
  split; [|split; [|split]].
  - unfold frequencyToX. change 20 with minFreq.
    unfold Rdiv. ring.
  - unfold frequencyToX. change 20000 with maxFreq.
    field. lra.
  - unfold frequencyToX.
    pose proof (Math_log10_increasing f1 f2 Hf1 Hf) as Hlog.
    apply Rmult_lt_compat_r; [exact Hw|].
    unfold Rdiv. apply Rmult_lt_compat_r; [exact Hinv|]. lra.
  - unfold xToFrequency. apply Math_pow_10_increasing.
    apply Rplus_lt_compat_l. apply Rmult_lt_compat_r; [exact HD|].
    unfold Rdiv. apply Rmult_lt_compat_r; [|exact Hx].
    apply Rinv_0_lt_compat. exact Hw.
Qed.

Lemma axis_increasing_witness :
  frequencyToX 440 800 < frequencyToX 880 800.
Proof.
  apply (axis_increasing 800 440 880 0 1); lra.
Defined.

Lemma generateSpectrumBars_nth_inv env st cw ch i bar :
  nth_error (generateSpectrumBars env st cw ch) i = Some bar ->
  (i < numBars)%nat /\
  bar = spectrumBar st ch (cw / INR numBars) (displayedMaxFreq env)
          (binWidth env st) (Z.of_nat (length (smoothedFrequencyData st)))
          (Math_log10 minFreq) (Math_log10 (displayedMaxFreq env)) i.
Proof.
  intros H.
  assert (Hi : (i < numBars)%nat).
  { assert (Hl : (i < length (generateSpectrumBars env st cw ch))%nat)
      by (apply nth_error_Some; congruence).
    unfold generateSpectrumBars in Hl.
    destruct (displayParameters env st) as [[m sr] fft].
    rewrite length_map, length_seq in Hl. exact Hl. }
  split; [exact Hi|].
  rewrite (generateSpectrumBars_nth env st cw ch i Hi) in H. congruence.
Qed.

(** X15.  When the displayed range reaches 20000 Hz (no analyser, or a
    sample rate of at least 40000 Hz) the bars are aligned with the
    axis: on a canvas of non-zero width the frequency of every bar is
    the frequency [xToFrequency] gives for the bar's [x], and on a
    canvas of positive width [frequencyToX] of it is that [x]. *)
Theorem bars_aligned_with_axis :
  forall (env : Env) (st : State) (canvasWidth canvasHeight : R)
         (i : nat) (bar : SpectrumBar),
    displayedMaxFreq env = 20000 ->
    canvasWidth <> 0 ->
    nth_error (generateSpectrumBars env st canvasWidth canvasHeight) i = Some bar ->
    frequency bar = xToFrequency (x bar) canvasWidth /\
    frequencyToX (frequency bar) canvasWidth = x bar.
Proof.
  intros env st cw ch i bar Hmax Hcw Hnth.
  destruct (generateSpectrumBars_nth_inv env st cw ch i bar Hnth) as [Hi ->].
  unfold spectrumBar. cbn [frequency x]. rewrite Hmax.
  change 20000 with maxFreq.
  pose proof axis_span as HD.
  assert (Hfreq : Math_pow 10 (Math_log10 minFreq
                               + INR i / INR numBars
                                 * (Math_log10 maxFreq - Math_log10 minFreq))
                  = xToFrequency (INR i * (cw / INR numBars)) cw).
  { unfold xToFrequency. f_equal. rewrite INR_numBars. field. exact Hcw. }
  split; [exact Hfreq|].
  unfold frequencyToX. rewrite Math_log10_pow. rewrite INR_numBars.
  field. lra.
Qed.

Lemma bars_aligned_with_axis_witness :
  exists bar,
    nth_error (generateSpectrumBars (demoEnv 2000 xff) (demoStarted xff) 800 400) 7
    = Some bar /\
    frequency bar = xToFrequency (x bar) 800.
Proof.
  eexists. split.
  - apply generateSpectrumBars_nth. unfold numBars. lia.
  - apply (bars_aligned_with_axis (demoEnv 2000 xff) (demoStarted xff) 800 400 7).
    + unfold displayedMaxFreq. simpl. apply Rmin_left. lra.
    + lra.
    + apply generateSpectrumBars_nth. unfold numBars. lia.
Defined.

Lemma barFrequency_lt maxDisplayFreq i j :
  20 < maxDisplayFreq -> (i < j)%nat ->
  barFrequency maxDisplayFreq i < barFrequency maxDisplayFreq j.
Proof.
  intros Hmax Hij. unfold barFrequency. apply Math_pow_10_increasing.
  assert (HD : Math_log10 20 < Math_log10 maxDisplayFreq)
    by (apply Math_log10_increasing; lra).
  apply lt_INR in Hij.
  apply Rplus_lt_compat_l. apply Rmult_lt_compat_r; [lra|].
  unfold Rdiv. apply Rmult_lt_compat_r; lra.
Qed.

Lemma barFrequency_range maxDisplayFreq i :
  20 < maxDisplayFreq -> (i < 100)%nat ->
  20 <= barFrequency maxDisplayFreq i < maxDisplayFreq.
Proof.
  intros Hmax Hi. split.
  - destruct i as [|i].
    + rewrite barFrequency_first. lra.
    + rewrite <- (barFrequency_first maxDisplayFreq). left.
      apply barFrequency_lt; [exact Hmax | lia].
  - rewrite <- (barFrequency_last maxDisplayFreq) at 2 by lra.
    apply barFrequency_lt; [exact Hmax | exact Hi].
Qed.

(** X16.  When the displayed range ends above 20 Hz the bars come in
    order of frequency: a bar further along the list has a strictly
    higher frequency, every frequency is at least 20 Hz and below the
    end of the displayed range, and on a canvas of positive width the
    bar is also further to the right. *)
Theorem bars_in_frequency_order :
  forall (env : Env) (st : State) (canvasWidth canvasHeight : R)
         (i j : nat) (bi bj : SpectrumBar),
    20 < displayedMaxFreq env ->
    nth_error (generateSpectrumBars env st canvasWidth canvasHeight) i = Some bi ->
    nth_error (generateSpectrumBars env st canvasWidth canvasHeight) j = Some bj ->
    (i < j)%nat ->
    20 <= frequency bi /\
    frequency bi < frequency bj /\
    frequency bj < displayedMaxFreq env /\
    (0 < canvasWidth -> x bi < x bj).
Proof.
  intros env st cw ch i j bi bj Hmax Hi Hj Hij.
  destruct (generateSpectrumBars_nth_inv env st cw ch i bi Hi) as [Hi100 ->].
  destruct (generateSpectrumBars_nth_inv env st cw ch j bj Hj) as [Hj100 ->].
  unfold spectrumBar. cbn [frequency x]. rewrite !barFrequency_eq.
  unfold numBars in Hi100, Hj100.
  split; [apply barFrequency_range; assumption|].
  split; [apply barFrequency_lt; assumption|].
  split; [apply barFrequency_range; assumption|].
  intros Hcw. apply Rmult_lt_compat_r.
  - rewrite INR_numBars. lra.
  - apply lt_INR. exact Hij.
Qed.

Lemma bars_in_frequency_order_witness :
  exists bi bj,
    nth_error (generateSpectrumBars (demoEnv 2000 xff) (demoStarted xff) 800 400) 3
    = Some bi /\
    nth_error (generateSpectrumBars (demoEnv 2000 xff) (demoStarted xff) 800 400) 4
    = Some bj /\
    frequency bi < frequency bj.
Proof.
  eexists. eexists. split; [|split].
  - apply generateSpectrumBars_nth. unfold numBars. lia.
  - apply generateSpectrumBars_nth. unfold numBars. lia.
  - apply (bars_in_frequency_order (demoEnv 2000 xff) (demoStarted xff)
             800 400 3 4).
    + apply demo_displayedMaxFreq.
    + apply generateSpectrumBars_nth. unfold numBars. lia.
    + apply generateSpectrumBars_nth. unfold numBars. lia.
    + lia.
Defined.

(** *** Silence *)

Lemma get_or_0_silent (sm : list R) :
  Forall (fun v => v = 0) sm -> forall b : Z, get_or_0 sm b = 0.
Proof.
  intros Hall b. unfold get_or_0. destruct (b <? 0)%Z; [reflexivity|].
  destruct (Nat.lt_ge_cases (Z.to_nat b) (length sm)) as [Hlt|Hge].
  - apply (proj1 (Forall_nth _ sm) Hall). exact Hlt.
  - apply nth_overflow. exact Hge.
Qed.

Lemma averagingLoop_silent (sm : list R) (s e r : R) (totalBins : Z) :
  (forall b : Z, get_or_0 sm b = 0) ->
  forall (n : nat) (bin : Z) (acc : R * R),
    fst acc = 0 -> fst (averagingLoop sm s e r totalBins n bin acc) = 0.
Proof.
  intros Hv. induction n as [|n IH]; intros bin acc Hacc; simpl; [exact Hacc|].
  destruct (totalBins <=? bin)%Z; [exact Hacc|].
  apply IH. destruct (Rlt_dec 0 _); [|exact Hacc].
  simpl. rewrite Hv, Hacc. ring.
Qed.

Lemma getAveragedFrequencyAmplitude_silent (st : State) (s e r : R) (totalBins : Z) :
  Forall (fun v => v = 0) (smoothedFrequencyData st) ->
  getAveragedFrequencyAmplitude st s e r totalBins = 0.
Proof.
  intros Hall. pose proof (get_or_0_silent _ Hall) as Hv.
  unfold getAveragedFrequencyAmplitude.
  destruct (_ =? _)%Z.
  - destruct (_ <? _)%Z; rewrite ?Hv; ring.
  - pose proof (averagingLoop_silent (smoothedFrequencyData st) s e r totalBins Hv
                  (Z.to_nat (Z.min (totalBins - 1) (Math_ceil (e / r))
                             - Z.max 0 (Math_floor (s / r)) + 1))
                  (Z.max 0 (Math_floor (s / r))) (0, 0) eq_refl) as Hl.
    destruct (averagingLoop _ _ _ _ _ _ _ _) as [ws tw]. simpl in Hl. subst ws.
    destruct (Rlt_dec 0 tw); [unfold Rdiv; ring | reflexivity].
Qed.

Lemma spectrumBar_height (st : State) (ch bw m r : R) (totalBins : Z)
    (logMin logMax : R) (i : nat) :
  let bar := spectrumBar st ch bw m r totalBins logMin logMax i in
  height bar
  = Rmax 0 ((if Rlt_dec 0 (amplitude bar)
             then Math_log10 (amplitude bar * 9 + 1) else 0) * ch * (9 / 10)).
Proof. reflexivity. Qed.

Lemma bars_silent env st cw ch bar :
  Forall (fun v => v = 0) (smoothedFrequencyData st) ->
  In bar (generateSpectrumBars env st cw ch) ->
  amplitude bar = 0 /\ height bar = 0.
Proof.
  intros Hall Hin. unfold generateSpectrumBars in Hin.
  destruct (displayParameters env st) as [[m sr] fft].
  apply in_map_iff in Hin. destruct Hin as (i & <- & _).
  assert (Ha : amplitude (spectrumBar st ch (cw / INR numBars) m (sr / IZR fft)
                            (Z.of_nat (length (smoothedFrequencyData st)))
                            (Math_log10 minFreq) (Math_log10 m) i) = 0).
  { unfold spectrumBar. cbn [amplitude].
    rewrite getAveragedFrequencyAmplitude_silent by exact Hall.
    unfold Rdiv. ring. }
  split; [exact Ha|].
  rewrite spectrumBar_height. rewrite Ha.
  destruct (Rlt_dec 0 0); [lra|].
  replace (0 * ch * (9 / 10)) with 0 by ring.
  apply Rmax_left. lra.
Qed.

(** X17.  Silence is drawn flat: when every smoothed bin is zero, every
    bar has amplitude 0 and height 0, whatever the canvas and whatever
    the figures of the analyser. *)
Theorem silent_bars_flat :
  forall (env : Env) (st : State) (canvasWidth canvasHeight : R)
         (bar : SpectrumBar),
    Forall (fun v => v = 0) (smoothedFrequencyData st) ->
    In bar (generateSpectrumBars env st canvasWidth canvasHeight) ->
    amplitude bar = 0 /\ height bar = 0.
Proof.
  intros env st cw ch bar Hall Hin. apply (bars_silent env st cw ch); assumption.
Qed.

Lemma silent_bars_flat_witness :
  exists bar,
    nth_error (generateSpectrumBars (demoEnv 2000 x00) (demoStarted x00) 800 400) 0
    = Some bar /\
    amplitude bar = 0.
Proof.
  eexists. split.
  - apply generateSpectrumBars_nth. unfold numBars. lia.
  - apply (silent_bars_flat (demoEnv 2000 x00) (demoStarted x00) 800 400).
    + cbn. rewrite byteR_x00.
      repeat (constructor; [unfold smoothingFactor; lra|]). constructor.
    + apply (nth_error_In _ 0).
      apply (generateSpectrumBars_nth (demoEnv 2000 x00) (demoStarted x00)).
      unfold numBars. lia.
Defined.

(** X18.  [dispose] leaves a stopped analyzer with its arrays zeroed at
    their length: the exposed data is all zeros, the callback is gone,
    and the bars drawn from it afterwards are flat. *)
Theorem dispose_clears :
  forall (env : Env) (st : State) (canvasWidth canvasHeight : R),
    let st' := fst (dispose st) in
    isRunning st' = false /\
    onUpdateCallback st' = None /\
    getFrequencyData st' = repeat 0 (length (getFrequencyData st)) /\
    frequencyData st' = repeat x00 (length (frequencyData st)) /\
    forall bar, In bar (generateSpectrumBars env st' canvasWidth canvasHeight) ->
                amplitude bar = 0 /\ height bar = 0.
Proof.
  intros env st cw ch st'.
  assert (Hconst : forall (A B : Type) (c : B) (l : list A),
             map (fun _ => c) l = repeat c (length l)).
  { intros A B c l. induction l as [|a l IH]; simpl; [reflexivity|].
    rewrite IH. reflexivity. }
  assert (Hsm : getFrequencyData st' = repeat 0 (length (getFrequencyData st))).
  { unfold st', dispose, getFrequencyData. simpl. apply Hconst. }
  split; [reflexivity|]. split; [reflexivity|]. split; [exact Hsm|].
  split; [unfold st', dispose; simpl; apply Hconst|].
  intros bar Hin. apply (bars_silent env st' cw ch); [|exact Hin].
  unfold getFrequencyData in Hsm. rewrite Hsm.
  apply Forall_forall. intros v Hv. apply repeat_spec in Hv. exact Hv.
Qed.

(** *** Colours *)

(** X20.  The colour of a bar runs from green to red as the amplitude
    grows: the hue never increases with the amplitude, and for an
    amplitude between 0 and 1 it lies between 0 and 140 - 140 at
    amplitude 0 and 0 at amplitude 1 - with full saturation and a
    lightness between 50% and 80%. *)
Theorem spectrum_color_hue :
  forall (a b : R),
    a <= b ->
    hue (getSpectrumColor b) <= hue (getSpectrumColor a) /\
    (0 <= a -> b <= 1 ->
     0 <= hue (getSpectrumColor a) <= 140 /\
     saturation (getSpectrumColor a) = 100 /\
     50 <= lightness (getSpectrumColor a) <= 80) /\
    hue (getSpectrumColor 0) = 140 /\
    hue (getSpectrumColor 1) = 0.
Proof.
  intros a b Hab.
  split; [|split; [|split]].
  - unfold getSpectrumColor.
    repeat (destruct (Rle_dec _ _); try lra); simpl; lra.
  - intros Ha Hb. unfold getSpectrumColor.
    repeat (destruct (Rle_dec _ _); try lra); simpl;
      (split; [|split]); lra.
  - unfold getSpectrumColor.
    repeat (destruct (Rle_dec _ _); try lra); simpl; lra.
  - unfold getSpectrumColor.
    repeat (destruct (Rle_dec _ _); try lra); simpl; lra.
Qed.

Lemma spectrum_color_hue_witness :
  hue (getSpectrumColor (8 / 10)) <= hue (getSpectrumColor (2 / 10)).
Proof.
  apply (spectrum_color_hue (2 / 10) (8 / 10)). lra.
Defined.

End SpectrumAnalyzerMore.
